(** * simcache.py: an E20 simulator with a one- or two-level LRU cache

    A shallow embedding of [simcache.py].  Python lists are Rocq lists read
    and written by index, Python integers are [Z], the 16-character
    instruction string built by [bin(memory[pc])[2:].zfill(16)] is a
    [string] (of the characters 0 and 1 when the word is not negative), and
    every Python exception
    (IndexError, ZeroDivisionError, ValueError, an unbound local) is the
    result [None] of the option monad. *)

From Stdlib Require Import ZArith String Ascii.
From Stdlib Require Import Decimal DecimalString DecimalNat.
From stdpp Require Import base option list strings.

Local Open Scope Z_scope.

(** ** Python primitives *)

Module Py.

(** [l[k]] for an integer [k]: a negative index counts from the end, and an
    index outside [-len(l) .. len(l)-1] raises IndexError. *)
Definition index {A} (l : list A) (k : Z) : option nat :=
  let n := Z.of_nat (length l) in
  if decide (0 <= k < n) then Some (Z.to_nat k)
  else if decide (- n <= k < 0) then Some (Z.to_nat (n + k))
  else None.

Definition get {A} (l : list A) (k : Z) : option A :=
  i ← index l k; l !! i.

(** [l[k] = x], in place. *)
Definition set {A} (l : list A) (k : Z) (x : A) : option (list A) :=
  i ← index l k; Some (<[i := x]> l).

(** [a // b] and [a % b]: floor division, the remainder has the sign of the
    divisor; a zero divisor raises ZeroDivisionError. *)
Definition floordiv (a b : Z) : option Z :=
  if decide (b = 0) then None else Some (a / b).

Definition modulo (a b : Z) : option Z :=
  if decide (b = 0) then None else Some (a mod b).

(** [bin(n)[2:]]: the binary digits of a non-negative [n]; for a negative
    [n] the slice cuts "-0b..." after the zero and leaves "b...". *)
Fixpoint bin_pos (p : positive) : string :=
  match p with
  | xH => "1"
  | xO q => bin_pos q +:+ "0"
  | xI q => bin_pos q +:+ "1"
  end.

Definition bin2 (n : Z) : string :=
  match n with
  | Z0 => "0"
  | Zpos p => bin_pos p
  | Zneg p => "b" +:+ bin_pos p
  end.

Fixpoint zeros (n : nat) : string :=
  match n with
  | O => ""
  | S n' => String "0" (zeros n')
  end.

(** [s.zfill(width)]: pad with zeros on the left, after a leading sign. *)
Definition zfill (width : nat) (s : string) : string :=
  let pad := zeros (width - String.length s) in
  match s with
  | String c r =>
      if decide (c = "+"%char ∨ c = "-"%char) then String c (pad +:+ r)
      else pad +:+ s
  | EmptyString => pad
  end.

(** [s[a:b]], [s[a:]] and [s[-n:]] for non-negative literals [a], [b], [n];
    slices are clipped to the string, as in Python. *)
Definition slice (a b : nat) (s : string) : string := substring a (b - a) s.

Definition slice_from (a : nat) (s : string) : string :=
  substring a (String.length s - a) s.

Definition slice_last (n : nat) (s : string) : string :=
  slice_from (String.length s - n) s.

(** The value of a string of binary digits, most significant first; [None]
    on any other character.  It is what [int2] below returns on a non-empty
    string of binary digits (lemma [int2_binary]). *)
Fixpoint int2_acc (acc : Z) (s : string) : option Z :=
  match s with
  | EmptyString => Some acc
  | String c r =>
      if decide (c = "0"%char) then int2_acc (2 * acc) r
      else if decide (c = "1"%char) then int2_acc (2 * acc + 1) r
      else None
  end.

(** [int(s, 2)] on a string of ASCII characters, as CPython reads the
    literal: blanks before it, one sign, the prefix 0b or 0B (one underscore
    may follow it), binary digits with single underscores between them, and
    blanks after it.  No digit, a leading, doubled or trailing underscore
    and any other character raise ValueError, which is [None]. *)
Definition is_space (c : ascii) : bool :=
  bool_decide (c = " "%char) ||
  (9 <=? nat_of_ascii c)%nat && (nat_of_ascii c <=? 13)%nat.

Fixpoint lstrip (s : string) : string :=
  match s with
  | EmptyString => s
  | String c r => if is_space c then lstrip r else s
  end.

Fixpoint all_space (s : string) : bool :=
  match s with
  | EmptyString => true
  | String c r => is_space c && all_space r
  end.

(** The run of digits and underscores at the head of [s]: its value, the
    number of digits and what follows it; [prev] says that the character
    before [s] was an underscore. *)
Fixpoint int2_digits (acc : Z) (n : nat) (prev : bool) (s : string)
    : option (Z * nat * string) :=
  match s with
  | EmptyString => if prev then None else Some (acc, n, s)
  | String c r =>
      if decide (c = "0"%char) then int2_digits (2 * acc) (S n) false r
      else if decide (c = "1"%char) then int2_digits (2 * acc + 1) (S n) false r
      else if decide (c = "_"%char) then
        if prev then None else int2_digits acc n true r
      else if prev then None else Some (acc, n, s)
  end.

Definition int2_sign (s : string) : bool * string :=
  match s with
  | String c r =>
      if decide (c = "+"%char) then (false, r)
      else if decide (c = "-"%char) then (true, r)
      else (false, s)
  | EmptyString => (false, s)
  end.

Definition int2_prefix (s : string) : string :=
  match s with
  | String c0 (String c1 r) =>
      if decide (c0 = "0"%char /\ (c1 = "b"%char \/ c1 = "B"%char)) then
        match r with
        | String c2 r' => if decide (c2 = "_"%char) then r' else r
        | EmptyString => r
        end
      else s
  | _ => s
  end.

Definition int2 (s : string) : option Z :=
  let '(neg, s) := int2_sign (lstrip s) in
  let s := int2_prefix s in
  if bool_decide (String.get 0 s = Some "_"%char) then None
  else
    match int2_digits 0 0 false s with
    | None => None
    | Some (v, n, rest) =>
        if decide (n = 0%nat) then None
        else if all_space rest then Some (if neg then - v else v)
        else None
    end.

End Py.

(** ** The cache: data *)

(** A slot of a set is the tuple [(tag, LRU counter)]; a slot never used is
    [(-1, -1)]. *)
Abbreviation slot := (Z * Z)%type.

Definition empty_slot : slot := (-1, -1).

(** [L1_status] / [L2_status]: the strings "SW", "HIT" and "MISS". *)
Inductive status := SW | HIT | MISS.

#[global] Instance status_eq_dec : EqDecision status.
Proof. solve_decision. Defined.

(** What the program prints: one [Config] line per configured cache
    ([print_cache_config]) and one [Access] line per cache touched by a
    memory instruction ([print_log_entry]). *)
Inductive output :=
  | Config (cache_name : string) (size assoc blocksize num_lines : Z)
  | Access (cache_name : string) (st : status) (pc addr line : Z).

(** ** One access to one set (lines 209-251, and again 263-290 for L2) *)

(** [for j in range(n): L[line][j] = (order_tup[0], order_tup[1]+1)],
    from index [j] on, [n] iterations left. *)
Fixpoint bump (s : list slot) (j n : nat) : option (list slot) :=
  match n with
  | O => Some s
  | S n' =>
      '(t, r) ← s !! j;
      bump (<[j := (t, r + 1)]> s) (S j) n'
  end.

(** The first loop, [for i in range(assoc)] with its two [break]s.  The
    result carries [done_with_mem] and the status; [is_lw] is
    [instr[2] == "0"]. *)
Fixpoint probe (assoc : nat) (tag : Z) (is_lw : bool) (s : list slot)
    (i n : nat) : option (list slot * bool * status) :=
  match n with
  | O => Some (s, false, SW)
  | S n' =>
      '(t, _) ← s !! i;
      if decide (t = tag) then
        s' ← bump (<[i := (tag, 0)]> s) 0 assoc;
        Some (s', true, if is_lw then HIT else SW)
      else if decide (t = -1) then
        s' ← bump (<[i := (tag, 0)]> s) 0 (i + 1);
        Some (s', true, if is_lw then MISS else SW)
      else probe assoc tag is_lw s (S i) n'
  end.

(** The search for the LRU slot: [maxi] starts at -1 and [maxi_index] keeps
    whatever value an earlier access left in it (unbound: [None]). *)
Fixpoint max_scan (s : list slot) (i n : nat) (maxi : Z)
    (maxi_index : option nat) : option (Z * option nat) :=
  match n with
  | O => Some (maxi, maxi_index)
  | S n' =>
      '(_, r) ← s !! i;
      if decide (r > maxi) then max_scan s (S i) n' r (Some i)
      else max_scan s (S i) n' maxi maxi_index
  end.

Definition access_set (assoc : nat) (tag : Z) (is_lw : bool)
    (maxi_index : option nat) (s : list slot)
    : option (list slot * status * option nat) :=
  match probe assoc tag is_lw s 0 assoc with
  | None => None
  | Some (s1, true, st) => Some (s1, st, maxi_index)
  | Some (s1, false, st) =>
      let st := if is_lw then MISS else st in
      '(_, maxi_index) ← max_scan s1 0 assoc (-1) maxi_index;
      k ← maxi_index;
      if decide (k < length s1)%nat then
        s2 ← bump (<[k := (tag, 0)]> s1) 0 assoc;
        Some (s2, st, maxi_index)
      else None
  end.

(** The address arithmetic and the update of the cache at the line. *)
Definition cache_access (blocksize numlines assoc : Z) (is_lw : bool)
    (mem_val : Z) (maxi_index : option nat) (L : list (list slot))
    : option (list (list slot) * status * Z * option nat) :=
  block_number ← Py.floordiv mem_val blocksize;
  line ← Py.modulo block_number numlines;
  tag ← Py.floordiv block_number numlines;
  s ← Py.get L line;
  match access_set (Z.to_nat assoc) tag is_lw maxi_index s with
  | None => None
  | Some (s', st, maxi_index) =>
      L' ← Py.set L line s';
      Some (L', st, line, maxi_index)
  end.

(** ** The instruction functions *)

(** The 7-bit immediate, decoded the same way in [tworegImm] (lines 67-70),
    [memImm] (82-84) and [jeq] (100-102):
    [imm = int(instr[10:],2)], then [imm -= 64] if [instr[9] == "1"]. *)
Definition imm7 (instr : string) : option Z :=
  imm ← Py.int2 (Py.slice_from 10 instr);
  msb ← String.get 9 instr;
  if decide (msb = "1"%char) then Some (imm - 64) else Some imm.

Definition threereg (pc : Z) (regs : list Z) (instr : string)
    : option (Z * list Z) :=
  dstIndex ← Py.int2 (Py.slice 9 12 instr);
  srcA_Index ← Py.int2 (Py.slice 3 6 instr);
  srcB_Index ← Py.int2 (Py.slice 6 9 instr);
  let op := Py.slice_last 4 instr in
  if decide (op = "0000") then
    a ← Py.get regs srcA_Index; b ← Py.get regs srcB_Index;
    regs ← Py.set regs dstIndex ((a + b) mod 2 ^ 16); Some (pc + 1, regs)
  else if decide (op = "0001") then
    a ← Py.get regs srcA_Index; b ← Py.get regs srcB_Index;
    regs ← Py.set regs dstIndex ((a - b) mod 2 ^ 16); Some (pc + 1, regs)
  else if decide (op = "0010") then
    a ← Py.get regs srcA_Index; b ← Py.get regs srcB_Index;
    regs ← Py.set regs dstIndex (Z.land a b); Some (pc + 1, regs)
  else if decide (op = "0011") then
    a ← Py.get regs srcA_Index; b ← Py.get regs srcB_Index;
    regs ← Py.set regs dstIndex (Z.lor a b); Some (pc + 1, regs)
  else if decide (op = "0100") then
    a ← Py.get regs srcA_Index; b ← Py.get regs srcB_Index;
    regs ← Py.set regs dstIndex (if decide (a < b) then 1 else 0);
    Some (pc + 1, regs)
  else if decide (op = "1000") then
    a ← Py.get regs srcA_Index; Some (a, regs)
  else Some (pc + 1, regs).

Definition tworegImm (pc : Z) (regs : list Z) (instr : string)
    : option (Z * list Z) :=
  dstIndex ← Py.int2 (Py.slice 6 9 instr);
  srcIndex ← Py.int2 (Py.slice 3 6 instr);
  imm ← imm7 instr;
  if decide (Py.slice 0 3 instr = "001") then
    a ← Py.get regs srcIndex;
    regs ← Py.set regs dstIndex (if decide (a < imm mod 2 ^ 16) then 1 else 0);
    Some (pc + 1, regs)
  else if decide (Py.slice 0 3 instr = "111") then
    a ← Py.get regs srcIndex;
    regs ← Py.set regs dstIndex ((a + imm) mod 2 ^ 16);
    Some (pc + 1, regs)
  else Some (pc + 1, regs).

(** [memImm] returns [(pc+1, regs[addrIndex]+imm)]; the second component is
    read after the load has written its destination register. *)
Definition memImm (pc : Z) (regs memory : list Z) (instr : string)
    : option (Z * Z * list Z * list Z) :=
  addrIndex ← Py.int2 (Py.slice 3 6 instr);
  imm ← imm7 instr;
  r ← (if decide (Py.slice 0 3 instr = "100") then
         dstIndex ← Py.int2 (Py.slice 6 9 instr);
         base ← Py.get regs addrIndex;
         v ← Py.get memory (base + imm);
         regs ← Py.set regs dstIndex v;
         Some (regs, memory)
       else if decide (Py.slice 0 3 instr = "101") then
         srcIndex ← Py.int2 (Py.slice 6 9 instr);
         v ← Py.get regs srcIndex;
         base ← Py.get regs addrIndex;
         memory ← Py.set memory (base + imm) v;
         Some (regs, memory)
       else Some (regs, memory));
  base ← Py.get r.1 addrIndex;
  Some (pc + 1, base + imm, r.1, r.2).

Definition jeq (pc : Z) (regs : list Z) (instr : string) : option Z :=
  regA_Index ← Py.int2 (Py.slice 3 6 instr);
  regB_Index ← Py.int2 (Py.slice 6 9 instr);
  rel_imm ← imm7 instr;
  a ← Py.get regs regA_Index; b ← Py.get regs regB_Index;
  if decide (a = b) then Some (pc + 1 + rel_imm) else Some (pc + 1).

(** [j_or_jal] returns [(imm, Halt)], after the link write of a [jal]. *)
Definition j_or_jal (pc : Z) (regs : list Z) (instr : string)
    : option (Z * bool * list Z) :=
  regs ← (if decide (Py.slice 0 3 instr = "011") then Py.set regs 7 (pc + 1)
          else Some regs);
  imm ← Py.int2 (Py.slice_from 3 instr);
  if decide (pc = imm) then Some (imm, true, regs)
  else Some (imm, false, regs).

(** ** Configuration and the state of [main] *)

Record config := Cfg {
  L1size : Z; L1assoc : Z; L1blocksize : Z; numlines_1 : Z;
  twocache : bool;
  L2size : Z; L2assoc : Z; L2blocksize : Z; numlines_2 : Z
}.

(** [L = []; for i in range(numlines): L.append(([(-1,-1)]*assoc).copy())] *)
Definition make_cache (numlines assoc : Z) : list (list slot) :=
  replicate (Z.to_nat numlines) (replicate (Z.to_nat assoc) empty_slot).

(** Lines 155-184.  The argument is [cmdline.cache] after [split(",")], each
    part being [Some n] when [int(x)] returns [n] and [None] when it raises
    ValueError; without [--cache] nothing is bound and the echo at line 187
    raises.  With one cache the L2 names stay unbound in Python and are
    never read; they are 0 and the empty list here. *)
Definition configure (cache : option (list (option Z)))
    : option (config * list (list slot) * list (list slot)) :=
  parts ← cache;
  if decide (length parts = 3%nat) then
    ints ← mapM id parts;
    match ints with
    | [s1; a1; b1] =>
        n1 ← Py.floordiv s1 (a1 * b1);
        Some (Cfg s1 a1 b1 n1 false 0 0 0 0, make_cache n1 a1, [])
    | _ => None
    end
  else if decide (length parts = 6%nat) then
    ints ← mapM id parts;
    match ints with
    | [s1; a1; b1; s2; a2; b2] =>
        n1 ← Py.floordiv s1 (a1 * b1);
        n2 ← Py.floordiv s2 (a2 * b2);
        Some (Cfg s1 a1 b1 n1 true s2 a2 b2 n2,
              make_cache n1 a1, make_cache n2 a2)
    | _ => None
    end
  else None.

Record state := State {
  pc : Z;
  regs : list Z;
  memory : list Z;
  L1 : list (list slot);
  L2 : list (list slot);
  maxi_index : option nat;
  halt : bool;
  out : list output
}.

(** The configuration echo, lines 187-188. *)
Definition echo (c : config) : list output :=
  Config "L1" (L1size c) (L1assoc c) (L1blocksize c) (numlines_1 c) ::
  (if twocache c
   then [Config "L2" (L2size c) (L2assoc c) (L2blocksize c) (numlines_2 c)]
   else []).

(** [main] up to the loop; [image] is the memory left by
    [load_machine_code]. *)
Definition start (cache : option (list (option Z))) (image : list Z)
    : option (config * state) :=
  match configure cache with
  | None => None
  | Some (c, l1, l2) =>
      Some (c, State 0 (replicate 8 0) image l1 l2 None false (echo c))
  end.

(** The instruction string of a memory word. *)
Definition fetch (w : Z) : string := Py.zfill 16 (Py.bin2 w).

(** One iteration of [while not halt] (lines 196-300). *)
Definition step (c : config) (σ : state) : option state :=
  w ← Py.get (memory σ) (pc σ);
  let instr := fetch w in
  if decide (Py.slice 0 3 instr = "000") then
    '(pc', regs') ← threereg (pc σ) (regs σ) instr;
    Some (State pc' regs' (memory σ) (L1 σ) (L2 σ) (maxi_index σ)
            (halt σ) (out σ))
  else if decide (Py.slice 0 3 instr = "001" ∨ Py.slice 0 3 instr = "111") then
    '(pc', regs') ← tworegImm (pc σ) (regs σ) instr;
    Some (State pc' regs' (memory σ) (L1 σ) (L2 σ) (maxi_index σ)
            (halt σ) (out σ))
  else if decide (Py.slice 0 2 instr = "10") then
    match memImm (pc σ) (regs σ) (memory σ) instr with
    | None => None
    | Some (pc', mem_val, regs', memory') =>
        bit2 ← String.get 2 instr;
        let is_lw := bool_decide (bit2 = "0"%char) in
        match cache_access (L1blocksize c) (numlines_1 c) (L1assoc c)
                is_lw mem_val (maxi_index σ) (L1 σ) with
        | None => None
        | Some (l1, L1_status, L1_line, mi) =>
            let out1 :=
              out σ ++ [Access "L1" L1_status (pc σ) mem_val L1_line] in
            if twocache c && bool_decide (L1_status ≠ HIT) then
              match cache_access (L2blocksize c) (numlines_2 c) (L2assoc c)
                      is_lw mem_val mi (L2 σ) with
              | None => None
              | Some (l2, L2_status, L2_line, mi) =>
                  Some (State pc' regs' memory' l1 l2 mi (halt σ)
                          (out1 ++
                           [Access "L2" L2_status (pc σ) mem_val L2_line]))
              end
            else Some (State pc' regs' memory' l1 (L2 σ) mi (halt σ) out1)
        end
    end
  else if decide (Py.slice 0 3 instr = "110") then
    pc' ← jeq (pc σ) (regs σ) instr;
    Some (State pc' (regs σ) (memory σ) (L1 σ) (L2 σ) (maxi_index σ)
            (halt σ) (out σ))
  else if decide (Py.slice 0 2 instr = "01") then
    match j_or_jal (pc σ) (regs σ) instr with
    | None => None
    | Some (imm, Halt, regs') =>
        if Halt then
          Some (State (pc σ) regs' (memory σ) (L1 σ) (L2 σ) (maxi_index σ)
                  true (out σ))
        else
          Some (State imm regs' (memory σ) (L1 σ) (L2 σ) (maxi_index σ)
                  (halt σ) (out σ))
    end
  else Some σ.

(** The loop, with fuel: [Some σ] is the state in which [halt] was set. *)
Inductive result := Halted (σ : state) | Raised | OutOfFuel (σ : state).

Fixpoint run (fuel : nat) (c : config) (σ : state) : result :=
  if halt σ then Halted σ
  else match fuel with
       | O => OutOfFuel σ
       | S fuel' =>
           match step c σ with
           | None => Raised
           | Some σ' => run fuel' c σ'
           end
       end.

(** ** Predicates of the statements *)

(** One more access of the set: the LRU counter of a slot grows by one. *)
Definition older (b : bool) (x : slot) : slot :=
  if b then (x.1, x.2 + 1) else x.

(** The first loop went through the slots [i .. m-1] without a [break]:
    none of them holds [tag] and none is empty. *)
Definition passed (tag : Z) (s : list slot) (i m : nat) : Prop :=
  forall k t r, (i <= k < m)%nat -> s !! k = Some (t, r) -> t <> tag /\ t <> -1.

(** A string of the characters 0 and 1. *)
Fixpoint binary (s : string) : Prop :=
  match s with
  | EmptyString => True
  | String c r => (c = "0"%char \/ c = "1"%char) /\ binary r
  end.

(** The invariant of a set of [assoc] slots: no tag occurs in two slots, the
    occupied slots come before the empty ones, and an occupied slot has a
    non-negative LRU counter. *)
Record set_ok (assoc : nat) (s : list slot) : Prop := SetOk {
  ok_length : length s = assoc;
  ok_unique : forall i j t r r',
    s !! i = Some (t, r) -> s !! j = Some (t, r') -> t <> -1 -> i = j;
  ok_prefix : forall i j t r r',
    (i < j)%nat -> s !! i = Some (-1, r) -> s !! j = Some (t, r') -> t = -1;
  ok_recency : forall i t r, s !! i = Some (t, r) -> t <> -1 -> 0 <= r
}.

Definition cache_ok (assoc numlines : Z) (L : list (list slot)) : Prop :=
  length L = Z.to_nat numlines /\ Forall (set_ok (Z.to_nat assoc)) L.

(** A two-word program, [lw $1, 0($0)] then [j 1], on two caches
    ([--cache 2,2,1,4,2,1]). *)
Definition demo_image : list Z := [32896; 16385].

Definition demo_cfg : config := Cfg 2 2 1 1 true 4 2 1 2.

Definition demo_state : state :=
  State 0 (replicate 8 0) demo_image
    (make_cache 1 2) (make_cache 2 2) None false (echo demo_cfg).

(** ** The instruction word as bit fields *)

Definition digit (b : bool) : ascii := if b then "1"%char else "0"%char.

(** The [n] low bits of [w], most significant first. *)
Fixpoint bits (n : nat) (w : Z) : string :=
  match n with
  | O => ""
  | S n' => String (digit (Z.testbit w (Z.of_nat n'))) (bits n' w)
  end.

(** ** Predicates on counters, registers and memory *)

(** The LRU counters of the occupied slots of a set are positive and
    pairwise distinct. *)
Definition counters_ok (s : list slot) : Prop :=
  forall i j t r t' r',
    s !! i = Some (t, r) -> s !! j = Some (t', r') -> t <> -1 -> t' <> -1 ->
    1 <= r /\ (r = r' -> i = j).

(** A list of 16-bit values. *)
Definition words_ok (l : list Z) : Prop := Forall (fun v => 0 <= v < 2 ^ 16) l.

(** The register file: [NUM_REGS] values below [REG_SIZE]. *)
Definition regs_ok (regs : list Z) : Prop :=
  length regs = 8%nat /\ words_ok regs.

(** ** The loader (lines 25-38) *)

(** The pattern [^ram\[(\d+)\] = 16'b(\d+);.*$] under [re.match], on a line
    of ASCII characters: the two groups on a match.  A run of digits is
    followed in the pattern by a character that is no digit, so the greedy
    match of [\d+] is the only one; [.*$] accepts what has no newline before
    its last character. *)
Module Re.

Definition is_digit (c : ascii) : bool :=
  (48 <=? nat_of_ascii c)%nat && (nat_of_ascii c <=? 57)%nat.

Fixpoint span_digits (s : string) : string * string :=
  match s with
  | EmptyString => ("", "")
  | String c r =>
      if is_digit c then
        let '(d, rest) := span_digits r in (String c d, rest)
      else ("", s)
  end.

Fixpoint literal (lit s : string) : option string :=
  match lit, s with
  | EmptyString, _ => Some s
  | String a lit', String b s' =>
      if decide (a = b) then literal lit' s' else None
  | String _ _, EmptyString => None
  end.

Definition newline : ascii := "010"%char.

Fixpoint dot_star_end (s : string) : bool :=
  match s with
  | EmptyString => true
  | String c r =>
      if decide (c = newline) then bool_decide (r = "") else dot_star_end r
  end.

Definition match_line (line : string) : option (string * string) :=
  s ← literal "ram[" line;
  let '(addr, s) := span_digits s in
  if decide (addr = "") then None else
  s ← literal "] = 16'b" s;
  let '(instr, s) := span_digits s in
  if decide (instr = "") then None else
  s ← literal ";" s;
  if dot_star_end s then Some (addr, instr) else None.

End Re.

(** [int(s, 10)] on a non-empty string of ASCII digits (the limit that
    recent Python versions put on the number of digits is left out). *)
Fixpoint int10_acc (acc : Z) (s : string) : Z :=
  match s with
  | EmptyString => acc
  | String c r => int10_acc (10 * acc + (Z.of_nat (nat_of_ascii c) - 48)) r
  end.

Definition int10 (s : string) : Z := int10_acc 0 s.

(** The loop of [load_machine_code] from the line with address
    [expectedaddr] on; both exceptions of the source, a ValueError of
    [int(instr,2)] and an IndexError of [mem[addr]] are [None]. *)
Fixpoint load_lines (machine_code : list string) (expectedaddr : Z)
    (mem : list Z) : option (list Z) :=
  match machine_code with
  | [] => Some mem
  | line :: rest =>
      match Re.match_line line with
      | None => None
      | Some (addr, instr) =>
          let addr := int10 addr in
          instr ← Py.int2 instr;
          if decide (addr <> expectedaddr) then None
          else
            mem ← Py.set mem addr instr;
            load_lines rest (expectedaddr + 1) mem
      end
  end.

Definition load_machine_code (machine_code : list string) (mem : list Z)
    : option (list Z) :=
  load_lines machine_code 0 mem.

(** What one line stands for: its address and its word. *)
Definition parse_line (line : string) : option (Z * Z) :=
  match Re.match_line line with
  | None => None
  | Some (addr, instr) => w ← Py.int2 instr; Some (int10 addr, w)
  end.

(** A line as the assembler writes it: the address in decimal, the word as
    16 binary digits, and a tail [rest] (a comment, the end of line). *)
Definition dec (n : nat) : string := NilEmpty.string_of_uint (Nat.to_uint n).

Definition ram_line (addr : nat) (w : Z) (rest : string) : string :=
  "ram[" +:+ dec addr +:+ "] = 16'b" +:+ fetch w +:+ ";" +:+ rest.

(** A string of ASCII digits. *)
Fixpoint digits (s : string) : Prop :=
  match s with
  | EmptyString => True
  | String c r => Re.is_digit c = true /\ digits r
  end.

(** * Lemmas *)

(** ** Binary strings and the instruction word *)

Lemma length_app (a b : string) :
  String.length (a +:+ b) = (String.length a + String.length b)%nat.
Proof. induction a as [|c a IH]; simpl; [done|]. by rewrite IH. Qed.

Lemma binary_app (a b : string) : binary a -> binary b -> binary (a +:+ b).
Proof. induction a as [|c a IH]; simpl; [done|]. intros [? ?] ?. auto. Qed.

Lemma zeros_binary n : binary (Py.zeros n).
Proof. induction n; simpl; auto. Qed.

Lemma zeros_length n : String.length (Py.zeros n) = n.
Proof. induction n; simpl; auto. Qed.

Lemma bin_pos_binary p : binary (Py.bin_pos p).
Proof.
  induction p; simpl; try (apply binary_app; [done|]); simpl; auto.
Qed.

Lemma bin_pos_length p : forall n : nat,
  Z.pos p < 2 ^ Z.of_nat n -> (1 <= String.length (Py.bin_pos p) <= n)%nat.
Proof.
  induction p as [q IH|q IH|]; intros n Hn; simpl.
  - destruct n as [|n]; [simpl in Hn; lia|].
    rewrite Nat2Z.inj_succ, Z.pow_succ_r in Hn by lia.
    rewrite length_app. simpl. specialize (IH n). lia.
  - destruct n as [|n]; [simpl in Hn; lia|].
    rewrite Nat2Z.inj_succ, Z.pow_succ_r in Hn by lia.
    rewrite length_app. simpl. specialize (IH n). lia.
  - destruct n as [|n]; [simpl in Hn; lia|]. lia.
Qed.

Lemma zfill_binary width (s : string) :
  binary s -> Py.zfill width s = Py.zeros (width - String.length s) +:+ s.
Proof.
  destruct s as [|c r]; simpl.
  - intros _. generalize (Py.zeros (width - 0)). intros z.
    induction z as [|c z IH]; [done|].
    change (String c z = String c (z +:+ "")). by f_equal.
  - intros [[-> | ->] _]; by rewrite decide_False by (intros [?|?]; discriminate).
Qed.

Lemma fetch_wf w :
  0 <= w < 2 ^ 16 -> String.length (fetch w) = 16%nat /\ binary (fetch w).
Proof.
  intros Hw. unfold fetch.
  assert (binary (Py.bin2 w) /\ (1 <= String.length (Py.bin2 w) <= 16)%nat)
    as [Hb Hl].
  { destruct w as [|p|p]; [| |lia].
    - simpl. split; [auto|lia].
    - split; [apply bin_pos_binary|]. apply (bin_pos_length p 16).
      change (Z.of_nat 16) with 16. lia. }
  rewrite zfill_binary by done. split.
  - rewrite length_app, zeros_length. lia.
  - apply binary_app; [apply zeros_binary|done].
Qed.

Lemma substring_binary (s : string) : forall a n,
  binary s -> binary (substring a n s).
Proof.
  induction s as [|c s IH]; intros [|a] [|n]; simpl; try done.
  - intros [? ?]. split; [done|]. by apply IH.
  - intros [? ?]. by apply IH.
  - intros [? ?]. by apply IH.
Qed.

Lemma substring_length (s : string) : forall a n,
  (a + n <= String.length s)%nat -> String.length (substring a n s) = n.
Proof.
  induction s as [|c s IH]; intros [|a] [|n]; simpl; try done; try lia.
  - intros ?. rewrite IH; lia.
  - intros ?. apply (IH a 0%nat). lia.
  - intros ?. apply IH. lia.
Qed.

Lemma get_binary (s : string) : forall n,
  binary s -> (n < String.length s)%nat ->
  exists c, String.get n s = Some c /\ (c = "0"%char \/ c = "1"%char).
Proof.
  induction s as [|c s IH]; intros [|n]; simpl; try lia.
  - intros [? _] _. eauto.
  - intros [_ ?] ?. apply IH; [done|lia].
Qed.

Lemma int2_acc_bounds (s : string) : forall acc,
  binary s ->
  exists v, Py.int2_acc acc s = Some v /\
    acc * 2 ^ Z.of_nat (String.length s) <= v
      < (acc + 1) * 2 ^ Z.of_nat (String.length s).
Proof.
  induction s as [|c s IH]; intros acc; simpl String.length.
  - intros _. exists acc. simpl. split; [done|lia].
  - intros [Hc Hs]. rewrite Nat2Z.inj_succ, Z.pow_succ_r by lia.
    cbn [Py.int2_acc]. destruct Hc as [-> | ->].
    + rewrite decide_True by done.
      destruct (IH (2 * acc) Hs) as (v & -> & Hv). exists v. split; [done|].
      nia.
    + rewrite decide_False by discriminate. rewrite decide_True by done.
      destruct (IH (2 * acc + 1) Hs) as (v & -> & Hv). exists v.
      split; [done|]. nia.
Qed.

Lemma int2_digits_binary (s : string) : forall acc n,
  binary s ->
  Py.int2_digits acc n false s =
    v ← Py.int2_acc acc s; Some (v, (n + String.length s)%nat, "").
Proof.
  induction s as [|c s IH]; intros acc n; simpl String.length.
  - intros _. cbn. by rewrite Nat.add_0_r.
  - intros [Hc Hs]. cbn [Py.int2_digits Py.int2_acc].
    destruct Hc as [-> | ->].
    + rewrite !decide_True by done. rewrite IH by done.
      by replace (S n + String.length s)%nat
        with (n + S (String.length s))%nat by lia.
    + rewrite !(decide_False (P := "1"%char = "0"%char)) by done.
      rewrite !decide_True by done. rewrite IH by done.
      by replace (S n + String.length s)%nat
        with (n + S (String.length s))%nat by lia.
Qed.

(** On a non-empty string of binary digits [int(s, 2)] is the value of the
    digits. *)
Lemma int2_binary (s : string) :
  binary s -> s <> "" -> Py.int2 s = Py.int2_acc 0 s.
Proof.
  intros Hb Hne. destruct s as [|c r]; [done|]. pose proof Hb as [Hc Hr].
  assert (Py.int2_sign (Py.lstrip (String c r)) = (false, String c r)) as Hs
    by (by destruct Hc as [-> | ->]).
  assert (Py.int2_prefix (String c r) = String c r) as Hp.
  { destruct r as [|d r]; [done|]. destruct Hr as [Hd _].
    unfold Py.int2_prefix. rewrite decide_False; [done|].
    intros [_ [-> | ->]]; by destruct Hd. }
  unfold Py.int2. rewrite Hs, Hp.
  rewrite bool_decide_eq_false_2
    by (cbn; intros [= ->]; by destruct Hc).
  rewrite int2_digits_binary by done.
  destruct (Py.int2_acc 0 (String c r)) as [v|]; [|done].
  cbn [mbind option_bind]. simpl String.length.
  rewrite decide_False by lia. done.
Qed.

Lemma int2_bounds (s : string) :
  binary s -> (0 < String.length s)%nat ->
  exists v, Py.int2 s = Some v /\ 0 <= v < 2 ^ Z.of_nat (String.length s).
Proof.
  intros Hb Hl. destruct (int2_acc_bounds s 0 Hb) as (v & Hv & Hr).
  exists v. split; [|lia]. rewrite int2_binary; [done|done|].
  intros ->. simpl in Hl. lia.
Qed.

(** ** List indexing within bounds *)

Lemma py_get_nonneg {A} (l : list A) k :
  0 <= k < Z.of_nat (length l) -> Py.get l k = l !! Z.to_nat k.
Proof. intros Hk. unfold Py.get, Py.index. by rewrite decide_True. Qed.

Lemma py_set_nonneg {A} (l : list A) k x :
  0 <= k < Z.of_nat (length l) ->
  Py.set l k x = Some (<[Z.to_nat k := x]> l).
Proof. intros Hk. unfold Py.set, Py.index. by rewrite decide_True. Qed.

(** ** The loops of one access *)

Section OneAccess.
  Context (assoc : nat) (tag : Z) (is_lw : bool).

Lemma bump_lookup n : forall j (s : list slot),
  (j + n <= length s)%nat ->
  exists s', bump s j n = Some s' /\ length s' = length s /\
    forall k, s' !! k = older (bool_decide (j <= k < j + n)%nat) <$> s !! k.
Proof.
  induction n as [|n IH]; intros j s Hlen; simpl.
  - exists s. split_and!; try done. intros k.
    rewrite bool_decide_eq_false_2 by lia. by destruct (s !! k).
  - destruct (lookup_lt_is_Some_2 s j) as [[t r] Hj]; [lia|].
    rewrite Hj; simpl.
    destruct (IH (S j) (<[j:=(t, r + 1)]> s)) as (s' & Hb & Hl & Hk).
    { rewrite length_insert. lia. }
    exists s'. rewrite Hb, Hl, length_insert. split_and!; try done.
    intros k. rewrite Hk. destruct (decide (k = j)) as [->|Hne].
    + rewrite list_lookup_insert_eq by lia. rewrite Hj. simpl.
      rewrite bool_decide_eq_false_2 by lia.
      rewrite bool_decide_eq_true_2 by lia. done.
    + rewrite list_lookup_insert_ne by done.
      destruct (s !! k) as [x|]; simpl; [|done].
      f_equal. f_equal. apply bool_decide_ext. lia.
Qed.

Lemma probe_match (s : list slot) m r n : forall i,
  (i <= m < i + n)%nat -> passed tag s i m -> s !! m = Some (tag, r) ->
  probe assoc tag is_lw s i n =
    s' ← bump (<[m := (tag, 0)]> s) 0 assoc;
    Some (s', true, if is_lw then HIT else SW).
Proof.
  induction n as [|n IH]; intros i Hm Hp Hs; [lia|]. simpl.
  destruct (decide (i = m)) as [->|Hne].
  - rewrite Hs. simpl. by rewrite decide_True.
  - destruct (lookup_lt_is_Some_2 s i) as [[t r'] Hi].
    { apply lookup_lt_Some in Hs. lia. }
    rewrite Hi. simpl. destruct (Hp i t r') as [? ?]; [lia|done|].
    rewrite !decide_False by done. apply IH; [lia| |done].
    intros k t0 r0 ?. apply Hp. lia.
Qed.

Lemma probe_fill (s : list slot) m r n : forall i,
  (i <= m < i + n)%nat -> passed tag s i m -> s !! m = Some (-1, r) ->
  tag <> -1 ->
  probe assoc tag is_lw s i n =
    s' ← bump (<[m := (tag, 0)]> s) 0 (m + 1);
    Some (s', true, if is_lw then MISS else SW).
Proof.
  induction n as [|n IH]; intros i Hm Hp Hs Ht; [lia|]. simpl.
  destruct (decide (i = m)) as [->|Hne].
  - rewrite Hs. cbn [mbind option_bind]. rewrite decide_False by done.
    by rewrite decide_True.
  - destruct (lookup_lt_is_Some_2 s i) as [[t r'] Hi].
    { apply lookup_lt_Some in Hs. lia. }
    rewrite Hi. simpl. destruct (Hp i t r') as [? ?]; [lia|done|].
    rewrite !decide_False by done. apply IH; [lia| |done|done].
    intros k t0 r0 ?. apply Hp. lia.
Qed.

Lemma probe_full (s : list slot) n : forall i,
  (i + n <= length s)%nat -> passed tag s i (i + n) ->
  probe assoc tag is_lw s i n = Some (s, false, SW).
Proof.
  induction n as [|n IH]; intros i Hl Hp; [done|]. simpl.
  destruct (lookup_lt_is_Some_2 s i) as [[t r'] Hi]; [lia|].
  rewrite Hi. simpl. destruct (Hp i t r') as [? ?]; [lia|done|].
  rewrite !decide_False by done. apply IH; [lia|].
  intros k t0 r0 ?. apply Hp. lia.
Qed.

Lemma max_scan_spec (s : list slot) n : forall i maxi mi,
  (i + n <= length s)%nat ->
  exists maxi' mi', max_scan s i n maxi mi = Some (maxi', mi') /\
    (forall k t r, (i <= k < i + n)%nat -> s !! k = Some (t, r) -> r <= maxi') /\
    ((maxi' = maxi /\ mi' = mi) \/
     (exists k t, mi' = Some k /\ (i <= k < i + n)%nat /\
        s !! k = Some (t, maxi') /\ maxi < maxi' /\
        forall k' t' r', (i <= k' < k)%nat -> s !! k' = Some (t', r') ->
          r' < maxi')).
Proof.
  induction n as [|n IH]; intros i maxi mi Hl; simpl.
  - exists maxi, mi. split_and!; [done| |by left]. intros; lia.
  - destruct (lookup_lt_is_Some_2 s i) as [[t r] Hi]; [lia|].
    rewrite Hi. simpl. destruct (decide (r > maxi)) as [Hgt|Hle].
    + destruct (IH (S i) r (Some i)) as (maxi' & mi' & -> & Hub & Hcase); [lia|].
      exists maxi', mi'. split; [done|].
      assert (r <= maxi') as Hr.
      { destruct Hcase as [[-> _]|(k & t' & _ & ? & _ & ? & _)]; lia. }
      split.
      * intros k t0 r0 Hk Hs. destruct (decide (k = i)) as [->|].
        -- rewrite Hi in Hs. by simplify_eq.
        -- eapply Hub; [|done]. lia.
      * right. destruct Hcase as [[-> ->]|(k & t' & -> & Hk & Hs & Hlt & Hbefore)].
        -- exists i, t. split_and!; try done; try lia; intros; lia.
        -- exists k, t'. split_and!; try done; try lia.
           intros k' t0 r0 Hk' Hs'. destruct (decide (k' = i)) as [->|].
           ++ rewrite Hi in Hs'. simplify_eq. lia.
           ++ eapply Hbefore; [|done]. lia.
    + destruct (IH (S i) maxi mi) as (maxi' & mi' & -> & Hub & Hcase); [lia|].
      exists maxi', mi'. split; [done|].
      assert (maxi <= maxi') as Hr.
      { destruct Hcase as [[-> _]|(k & t' & _ & ? & _ & ? & _)]; lia. }
      split.
      * intros k t0 r0 Hk Hs. destruct (decide (k = i)) as [->|].
        -- rewrite Hi in Hs. simplify_eq. lia.
        -- eapply Hub; [|done]. lia.
      * destruct Hcase as [[-> ->]|(k & t' & -> & Hk & Hs & Hlt & Hbefore)].
        -- by left.
        -- right. exists k, t'. split_and!; try done; try lia.
           intros k' t0 r0 Hk' Hs'. destruct (decide (k' = i)) as [->|].
           ++ rewrite Hi in Hs'. simplify_eq. lia.
           ++ eapply Hbefore; [|done]. lia.
Qed.

Lemma probe_status (s : list slot) n : forall i s' d st,
  probe assoc tag is_lw s i n = Some (s', d, st) ->
  if d then st = (if is_lw then HIT else SW) \/ st = (if is_lw then MISS else SW)
  else st = SW.
Proof.
  induction n as [|n IH]; intros i s' d st; simpl.
  - intros. by simplify_eq.
  - destruct (s !! i) as [[t r]|]; [|done]. cbn [mbind option_bind].
    repeat case_decide.
    + destruct (bump _ _ _); [|done]. cbn [mbind option_bind].
      intros. simplify_eq. by left.
    + destruct (bump _ _ _); [|done]. cbn [mbind option_bind].
      intros. simplify_eq. by right.
    + apply IH.
Qed.

Lemma access_set_status mi (s : list slot) s' st mi' :
  access_set assoc tag is_lw mi s = Some (s', st, mi') ->
  if is_lw then st = HIT \/ st = MISS else st = SW.
Proof.
  unfold access_set.
  destruct (probe assoc tag is_lw s 0 assoc) as [[[s1 d] st1]|] eqn:Hp; [|done].
  apply probe_status in Hp. destruct d.
  - intros [= -> -> ->]. destruct is_lw; [done|by destruct Hp].
  - subst st1. destruct (max_scan _ _ _ _ _) as [[m k]|]; [|done].
    cbn [mbind option_bind]. destruct k as [k|]; [|done].
    cbn [mbind option_bind]. case_decide; [|done].
    destruct (bump _ _ _); [|done]. cbn [mbind option_bind].
    intros. simplify_eq. destruct is_lw; auto.
Qed.

(** ** The three ways through an access *)

Lemma access_set_match mi (s : list slot) m r :
  length s = assoc -> s !! m = Some (tag, r) -> passed tag s 0 m ->
  exists s', access_set assoc tag is_lw mi s
               = Some (s', if is_lw then HIT else SW, mi) /\
    bump (<[m := (tag, 0)]> s) 0 assoc = Some s' /\
    length s' = assoc /\ s' !! m = Some (tag, 1) /\
    forall j t r', j <> m -> s !! j = Some (t, r') -> s' !! j = Some (t, r' + 1).
Proof.
  intros Hl Hm Hp. pose proof (lookup_lt_Some _ _ _ Hm) as Hlt.
  destruct (bump_lookup assoc 0 (<[m := (tag, 0)]> s)) as (s' & Hb & Hl' & Hk).
  { rewrite length_insert. lia. }
  rewrite length_insert in Hl'.
  exists s'. unfold access_set.
  rewrite (probe_match s m r assoc 0) by (done || lia).
  rewrite Hb. simpl. split_and!; try done; try lia.
  - rewrite Hk, list_lookup_insert_eq by lia. simpl.
    by rewrite bool_decide_eq_true_2 by lia.
  - intros j t r' Hne Hj. pose proof (lookup_lt_Some _ _ _ Hj).
    rewrite Hk, list_lookup_insert_ne, Hj by done. simpl.
    by rewrite bool_decide_eq_true_2 by lia.
Qed.

Lemma access_set_fill mi (s : list slot) m r :
  length s = assoc -> s !! m = Some (-1, r) -> passed tag s 0 m -> tag <> -1 ->
  exists s', access_set assoc tag is_lw mi s
               = Some (s', if is_lw then MISS else SW, mi) /\
    bump (<[m := (tag, 0)]> s) 0 (m + 1) = Some s' /\
    length s' = assoc /\ s' !! m = Some (tag, 1) /\
    (forall j t r', (j < m)%nat -> s !! j = Some (t, r') ->
       s' !! j = Some (t, r' + 1)) /\
    (forall j, (m < j)%nat -> s' !! j = s !! j).
Proof.
  intros Hl Hm Hp Ht. pose proof (lookup_lt_Some _ _ _ Hm) as Hlt.
  destruct (bump_lookup (m + 1) 0 (<[m := (tag, 0)]> s)) as (s' & Hb & Hl' & Hk).
  { rewrite length_insert. lia. }
  rewrite length_insert in Hl'.
  exists s'. unfold access_set.
  rewrite (probe_fill s m r assoc 0) by (done || lia).
  rewrite Hb. simpl. split_and!; try done; try lia.
  - rewrite Hk, list_lookup_insert_eq by lia. simpl.
    by rewrite bool_decide_eq_true_2 by lia.
  - intros j t r' Hne Hj.
    rewrite Hk, list_lookup_insert_ne, Hj by lia. simpl.
    by rewrite bool_decide_eq_true_2 by lia.
  - intros j Hj. rewrite Hk, list_lookup_insert_ne by lia.
    rewrite bool_decide_eq_false_2 by lia. by destruct (s !! j).
Qed.

Lemma access_set_evict mi (s : list slot) :
  length s = assoc -> (0 < assoc)%nat -> passed tag s 0 assoc ->
  (forall j t r, s !! j = Some (t, r) -> 0 <= r) ->
  exists k t_k r_k s',
    access_set assoc tag is_lw mi s
      = Some (s', if is_lw then MISS else SW, Some k) /\
    s !! k = Some (t_k, r_k) /\
    (forall j t r, s !! j = Some (t, r) -> r <= r_k) /\
    (forall j t r, (j < k)%nat -> s !! j = Some (t, r) -> r < r_k) /\
    bump (<[k := (tag, 0)]> s) 0 assoc = Some s' /\
    length s' = assoc /\ s' !! k = Some (tag, 1) /\
    forall j t r, j <> k -> s !! j = Some (t, r) -> s' !! j = Some (t, r + 1).
Proof.
  intros Hl Hpos Hp Hrec.
  destruct (max_scan_spec s assoc 0 (-1) mi) as (maxi & mi' & Hms & Hub & Hcase);
    [lia|].
  destruct Hcase as [[-> _]|(k & t_k & -> & Hk & Hsk & _ & Hbefore)].
  { destruct (lookup_lt_is_Some_2 s 0) as [[t r] H0]; [lia|].
    pose proof (Hub 0%nat t r ltac:(lia) H0). pose proof (Hrec _ _ _ H0). lia. }
  destruct (bump_lookup assoc 0 (<[k := (tag, 0)]> s)) as (s' & Hb & Hl' & Hlk).
  { rewrite length_insert. lia. }
  rewrite length_insert in Hl'.
  exists k, t_k, maxi, s'. unfold access_set.
  rewrite (probe_full s assoc 0) by (done || lia).
  rewrite Hms. simpl. rewrite decide_True by lia. rewrite Hb. simpl.
  split_and!; try done; try lia.
  - intros j t r Hj. eapply Hub; [|done].
    apply lookup_lt_Some in Hj. lia.
  - intros j t r Hj. apply Hbefore. lia.
  - rewrite Hlk, list_lookup_insert_eq by lia. simpl.
    by rewrite bool_decide_eq_true_2 by lia.
  - intros j t r Hne Hj. pose proof (lookup_lt_Some _ _ _ Hj).
    rewrite Hlk, list_lookup_insert_ne, Hj by done. simpl.
    by rewrite bool_decide_eq_true_2 by lia.
Qed.

(** ** The invariant of a set *)

Lemma fresh_set_ok : set_ok assoc (replicate assoc empty_slot).
Proof.
  split.
  - apply length_replicate.
  - intros i j t r r' [? _]%lookup_replicate. unfold empty_slot in *. congruence.
  - intros i j t r r' _ _ [? _]%lookup_replicate. unfold empty_slot in *.
    congruence.
  - intros i t r [? _]%lookup_replicate. unfold empty_slot in *. congruence.
Qed.

Lemma first_stop (s : list slot) n :
  (n <= length s)%nat ->
  passed tag s 0 n \/
  exists m t r, (m < n)%nat /\ s !! m = Some (t, r) /\ (t = tag \/ t = -1) /\
    passed tag s 0 m.
Proof.
  induction n as [|n IH]; intros Hn.
  - left. intros k t r ?. lia.
  - destruct IH as [Hp|(m & t & r & ? & ? & ? & ?)]; [lia| |].
    + destruct (lookup_lt_is_Some_2 s n) as [[t r] Hs]; [lia|].
      destruct (decide (t = tag)) as [->|Hne]; [right; exists n, tag, r; eauto 6|].
      destruct (decide (t = -1)) as [->|Hne']; [right; exists n, (-1), r; eauto 6|].
      left. intros k t' r' Hk Hs'. destruct (decide (k = n)) as [->|].
      * rewrite Hs in Hs'. by simplify_eq.
      * eapply Hp; [|done]. lia.
    + right. exists m, t, r. split_and!; try done. lia.
Qed.

Lemma access_set_ok mi (s : list slot) :
  (0 < assoc)%nat -> tag <> -1 -> set_ok assoc s ->
  exists s' st mi', access_set assoc tag is_lw mi s = Some (s', st, mi') /\
    set_ok assoc s'.
Proof.
  intros Hpos Htag [Hl Hu Hpre Hrec].
  destruct (first_stop s (length s)) as [Hp|(m & t & r & Hm & Hs & Ht & Hp)];
    [lia| |].
  - (* the set is full: eviction *)
    rewrite Hl in Hp.
    destruct (access_set_evict mi s)
      as (k & t_k & r_k & s' & -> & Hk & _ & _ & _ & Hl' & Hk' & Ho); try done.
    { intros j t r Hj. eapply Hrec; [done|].
      apply (Hp j t r); [apply lookup_lt_Some in Hj; lia|done]. }
    eexists _, _, _. split; [done|].
    assert (forall j t r, s' !! j = Some (t, r) -> j <> k ->
              exists r0, s !! j = Some (t, r0) /\ r = r0 + 1) as Hinv.
    { intros j t r Hj Hne. destruct (lookup_lt_is_Some_2 s j) as [[t0 r0] H0].
      { apply lookup_lt_Some in Hj. lia. }
      rewrite (Ho _ _ _ Hne H0) in Hj. simplify_eq. eauto. }
    assert (forall j t r, s !! j = Some (t, r) -> t <> tag /\ t <> -1) as Hfull.
    { intros j t r Hj. apply (Hp j t r); [|done].
      apply lookup_lt_Some in Hj. lia. }
    split; [done| | |].
    + intros i j t r r' Hi Hj Hne.
      destruct (decide (i = k)) as [->|Hik], (decide (j = k)) as [->|Hjk];
        try done.
      * rewrite Hk' in Hi. simplify_eq.
        destruct (Hinv _ _ _ Hj Hjk) as (r0 & H0 & _). by destruct (Hfull _ _ _ H0).
      * rewrite Hk' in Hj. simplify_eq.
        destruct (Hinv _ _ _ Hi Hik) as (r0 & H0 & _). by destruct (Hfull _ _ _ H0).
      * destruct (Hinv _ _ _ Hi Hik) as (r0 & H0 & _).
        destruct (Hinv _ _ _ Hj Hjk) as (r1 & H1 & _). eauto.
    + intros i j t r r' _ Hi _. exfalso.
      destruct (decide (i = k)) as [->|Hik].
      * rewrite Hk' in Hi. by simplify_eq.
      * destruct (Hinv _ _ _ Hi Hik) as (r0 & H0 & _). by destruct (Hfull _ _ _ H0).
    + intros i t r Hi Hne. destruct (decide (i = k)) as [->|Hik].
      * rewrite Hk' in Hi. by simplify_eq.
      * destruct (Hinv _ _ _ Hi Hik) as (r0 & H0 & ->).
        pose proof (Hrec _ _ _ H0 Hne). lia.
  - destruct (decide (t = tag)) as [->|Hne].
    + (* the tag is resident at [m] *)
      destruct (access_set_match mi s m r)
        as (s' & -> & _ & Hl' & Hm' & Ho); try done.
      eexists _, _, _. split; [done|].
      assert (forall j t r0, s' !! j = Some (t, r0) ->
                exists r1, s !! j = Some (t, r1) /\ (t <> -1 -> 0 <= r0)) as Hinv.
      { intros j t r0 Hj. destruct (decide (j = m)) as [->|Hjm].
        - rewrite Hm' in Hj. simplify_eq. exists r. split; [done|lia].
        - destruct (lookup_lt_is_Some_2 s j) as [[t0 r1] H0].
          { apply lookup_lt_Some in Hj. lia. }
          rewrite (Ho _ _ _ Hjm H0) in Hj. simplify_eq.
          exists r1. split; [done|]. intros Hoc.
          pose proof (Hrec _ _ _ H0 Hoc). lia. }
      split; [done| | |].
      * intros i j t r0 r0' Hi Hj Hoc.
        destruct (Hinv _ _ _ Hi) as (r1 & H1 & _).
        destruct (Hinv _ _ _ Hj) as (r2 & H2 & _). eauto.
      * intros i j t r0 r0' Hij Hi Hj.
        destruct (Hinv _ _ _ Hi) as (r1 & H1 & _).
        destruct (Hinv _ _ _ Hj) as (r2 & H2 & _). eauto.
      * intros i t r0 Hi Hoc. destruct (Hinv _ _ _ Hi) as (r1 & _ & H1). auto.
    + (* the first empty slot is [m] *)
      destruct Ht as [?| ->]; [done|].
      destruct (access_set_fill mi s m r)
        as (s' & -> & _ & Hl' & Hm' & Hbelow & Habove); try done.
      eexists _, _, _. split; [done|].
      assert (forall j t r0, s' !! j = Some (t, r0) -> j <> m ->
                exists r1, s !! j = Some (t, r1) /\ (t <> -1 -> 0 <= r0)) as Hinv.
      { intros j t r0 Hj Hjm. destruct (decide (j < m)%nat) as [Hlt|Hge].
        - destruct (lookup_lt_is_Some_2 s j) as [[t0 r1] H0].
          { apply lookup_lt_Some in Hj. lia. }
          rewrite (Hbelow _ _ _ Hlt H0) in Hj. simplify_eq.
          exists r1. split; [done|]. intros Hoc.
          pose proof (Hrec _ _ _ H0 Hoc). lia.
        - rewrite Habove in Hj by lia. exists r0. split; [done|]. eauto. }
      assert (forall j r1, s !! j = Some (tag, r1) -> False) as Hfresh.
      { intros j r1 Hj. destruct (decide (j < m)%nat) as [Hlt|Hge].
        - by destruct (Hp j tag r1 ltac:(lia) Hj).
        - destruct (decide (j = m)) as [->|]; [congruence|].
          apply Htag. eapply (Hpre m j); [|done|done]. lia. }
      split; [done| | |].
      * intros i j t r0 r0' Hi Hj Hoc.
        destruct (decide (i = m)) as [->|Him], (decide (j = m)) as [->|Hjm];
          try done.
        -- rewrite Hm' in Hi. simplify_eq.
           destruct (Hinv _ _ _ Hj Hjm) as (r1 & H1 & _). by destruct (Hfresh _ _ H1).
        -- rewrite Hm' in Hj. simplify_eq.
           destruct (Hinv _ _ _ Hi Him) as (r1 & H1 & _). by destruct (Hfresh _ _ H1).
        -- destruct (Hinv _ _ _ Hi Him) as (r1 & H1 & _).
           destruct (Hinv _ _ _ Hj Hjm) as (r2 & H2 & _). eauto.
      * intros i j t r0 r0' Hij Hi Hj.
        destruct (decide (i = m)) as [->|Him].
        { rewrite Hm' in Hi. by simplify_eq. }
        destruct (Hinv _ _ _ Hi Him) as (r1 & H1 & _).
        destruct (decide (i < m)%nat) as [Hlt|Hge].
        { by destruct (Hp i (-1) r1 ltac:(lia) H1). }
        destruct (Hinv j t r0') as (r2 & H2 & _); [done|lia|]. eauto.
      * intros i t r0 Hi Hoc. destruct (decide (i = m)) as [->|Him].
        -- rewrite Hm' in Hi. by simplify_eq.
        -- destruct (Hinv _ _ _ Hi Him) as (r1 & _ & H1). auto.
Qed.
End OneAccess.

(** ** The status of an access and the dispatch on the prefix *)

Lemma cache_access_status blocksize numlines assoc is_lw mem_val mi
    (L : list (list slot)) L' st line mi' :
  cache_access blocksize numlines assoc is_lw mem_val mi L
    = Some (L', st, line, mi') ->
  if is_lw then st = HIT \/ st = MISS else st = SW.
Proof.
  unfold cache_access.
  destruct (Py.floordiv mem_val blocksize) as [bn|]; [|done].
  cbn [mbind option_bind].
  destruct (Py.modulo bn numlines) as [ln|]; [|done]. cbn [mbind option_bind].
  destruct (Py.floordiv bn numlines) as [tg|]; [|done]. cbn [mbind option_bind].
  destruct (Py.get L ln) as [s|]; [|done]. cbn [mbind option_bind].
  destruct (access_set _ _ _ _ _) as [[[s' st'] mi'']|] eqn:Ha; [|done].
  apply access_set_status in Ha.
  destruct (Py.set L ln s'); [|done]. cbn [mbind option_bind].
  intros. by simplify_eq.
Qed.

Lemma slice3_of_slice2 (s : string) a b x y z :
  Py.slice 0 2 s = String a (String b "") ->
  Py.slice 0 3 s = String x (String y z) -> x = a /\ y = b.
Proof.
  unfold Py.slice.
  destruct s as [|c1 [|c2 [|c3 r]]]; simpl; intros; by simplify_eq.
Qed.

Ltac other_prefix H2 :=
  let H := fresh in
  intros H; first
    [ destruct (slice3_of_slice2 _ _ _ _ _ _ H2 H); discriminate
    | rewrite H2 in H; discriminate ].

Lemma step_jump c σ w :
  Py.get (memory σ) (pc σ) = Some w ->
  Py.slice 0 2 (fetch w) = "01" ->
  step c σ =
    match j_or_jal (pc σ) (regs σ) (fetch w) with
    | None => None
    | Some (imm, Halt, regs') =>
        if Halt then
          Some (State (pc σ) regs' (memory σ) (L1 σ) (L2 σ) (maxi_index σ)
                  true (out σ))
        else
          Some (State imm regs' (memory σ) (L1 σ) (L2 σ) (maxi_index σ)
                  (halt σ) (out σ))
    end.
Proof.
  intros Hw H2. unfold step. rewrite Hw. cbn [mbind option_bind].
  revert H2. generalize (fetch w). intros instr H2.
  rewrite (decide_False (P := Py.slice 0 3 instr = "000")) by other_prefix H2.
  rewrite (decide_False (P := _ \/ _)) by (intros [?|?]; revert H; other_prefix H2).
  rewrite (decide_False (P := Py.slice 0 2 instr = "10")) by other_prefix H2.
  rewrite (decide_False (P := Py.slice 0 3 instr = "110")) by other_prefix H2.
  by rewrite (decide_True (P := Py.slice 0 2 instr = "01")).
Qed.

Lemma slice2_of_slice3 (s : string) a b c :
  Py.slice 0 3 s = String a (String b (String c "")) ->
  Py.slice 0 2 s = String a (String b "").
Proof.
  unfold Py.slice.
  destruct s as [|c1 [|c2 [|c3 r]]]; simpl; intros; by simplify_eq.
Qed.

Lemma j_or_jal_spec pc regs w :
  0 <= w < 2 ^ 16 -> length regs = 8%nat ->
  exists imm, Py.int2 (Py.slice_from 3 (fetch w)) = Some imm /\
    0 <= imm < 2 ^ 13 /\
    j_or_jal pc regs (fetch w) =
      Some (imm, bool_decide (pc = imm),
            if decide (Py.slice 0 3 (fetch w) = "011")
            then <[7%nat := pc + 1]> regs else regs).
Proof.
  intros Hw Hregs. destruct (fetch_wf w Hw) as [Hl Hb].
  destruct (int2_bounds (Py.slice_from 3 (fetch w))) as (imm & Himm & Hr).
  { by apply substring_binary. }
  { unfold Py.slice_from. rewrite substring_length; lia. }
  unfold Py.slice_from in Hr. rewrite substring_length in Hr by lia.
  rewrite Hl in Hr. change (Z.of_nat (16 - 3)) with 13 in Hr.
  exists imm. split; [done|]. split; [lia|]. unfold j_or_jal.
  assert (Py.set regs 7 (pc + 1) = Some (<[7%nat := pc + 1]> regs)) as Hset.
  { unfold Py.set, Py.index. rewrite Hregs. by rewrite decide_True by lia. }
  destruct (decide (Py.slice 0 3 (fetch w) = "011"));
    rewrite ?Hset; cbn [mbind option_bind]; rewrite Himm;
    cbn [mbind option_bind]; by case_decide; rewrite ?bool_decide_eq_true_2,
      ?bool_decide_eq_false_2 by done.
Qed.

Lemma step_mem c σ w :
  Py.get (memory σ) (pc σ) = Some w ->
  Py.slice 0 2 (fetch w) = "10" ->
  step c σ =
    match memImm (pc σ) (regs σ) (memory σ) (fetch w) with
    | None => None
    | Some (pc', mem_val, regs', memory') =>
        bit2 ← String.get 2 (fetch w);
        let is_lw := bool_decide (bit2 = "0"%char) in
        match cache_access (L1blocksize c) (numlines_1 c) (L1assoc c)
                is_lw mem_val (maxi_index σ) (L1 σ) with
        | None => None
        | Some (l1, L1_status, L1_line, mi) =>
            let out1 :=
              out σ ++ [Access "L1" L1_status (pc σ) mem_val L1_line] in
            if twocache c && bool_decide (L1_status ≠ HIT) then
              match cache_access (L2blocksize c) (numlines_2 c) (L2assoc c)
                      is_lw mem_val mi (L2 σ) with
              | None => None
              | Some (l2, L2_status, L2_line, mi) =>
                  Some (State pc' regs' memory' l1 l2 mi (halt σ)
                          (out1 ++
                           [Access "L2" L2_status (pc σ) mem_val L2_line]))
              end
            else Some (State pc' regs' memory' l1 (L2 σ) mi (halt σ) out1)
        end
    end.
Proof.
  intros Hw H2. unfold step. rewrite Hw. cbn [mbind option_bind].
  revert H2. generalize (fetch w). intros instr H2.
  rewrite (decide_False (P := Py.slice 0 3 instr = "000")) by other_prefix H2.
  rewrite (decide_False (P := _ \/ _)) by (intros [?|?]; revert H; other_prefix H2).
  by rewrite (decide_True (P := Py.slice 0 2 instr = "10")).
Qed.




(** * The claims *)

(** ** Two-level propagation *)

(** C1.  On a memory instruction (prefix 10) with two caches, once [memImm]
    and the L1 access have returned: a store leaves the L1 status at SW and
    a load gets HIT or MISS; on HIT the step ends with L2 untouched and only
    the L1 line printed; on any other status the step is the L2 access, run
    with L2's own parameters on the same address, followed by the L2 line. *)
Theorem l2_accessed_iff_l1_not_hit c σ w pc' mem_val regs' memory' bit2
    l1 st1 line1 mi1 :
  twocache c = true ->
  Py.get (memory σ) (pc σ) = Some w ->
  Py.slice 0 2 (fetch w) = "10" ->
  memImm (pc σ) (regs σ) (memory σ) (fetch w)
    = Some (pc', mem_val, regs', memory') ->
  String.get 2 (fetch w) = Some bit2 ->
  cache_access (L1blocksize c) (numlines_1 c) (L1assoc c)
    (bool_decide (bit2 = "0"%char)) mem_val (maxi_index σ) (L1 σ)
    = Some (l1, st1, line1, mi1) ->
  let out1 := out σ ++ [Access "L1" st1 (pc σ) mem_val line1] in
  (bit2 <> "0"%char -> st1 = SW) /\
  (bit2 = "0"%char -> st1 = HIT \/ st1 = MISS) /\
  (st1 = HIT ->
     step c σ = Some (State pc' regs' memory' l1 (L2 σ) mi1 (halt σ) out1)) /\
  (st1 <> HIT ->
     step c σ =
       match cache_access (L2blocksize c) (numlines_2 c) (L2assoc c)
               (bool_decide (bit2 = "0"%char)) mem_val mi1 (L2 σ) with
       | None => None
       | Some (l2, st2, line2, mi2) =>
           Some (State pc' regs' memory' l1 l2 mi2 (halt σ)
                   (out1 ++ [Access "L2" st2 (pc σ) mem_val line2]))
       end).
Proof.
  intros Htwo Hget H10 Hmem Hbit Hacc out1.
  pose proof (cache_access_status _ _ _ _ _ _ _ _ _ _ _ Hacc) as Hst.
  rewrite (step_mem c σ w Hget H10), Hmem, Hbit. cbn [mbind option_bind].
  cbv zeta. rewrite Hacc, Htwo. split_and!.
  - intros Hb. by rewrite bool_decide_eq_false_2 in Hst.
  - intros Hb. by rewrite bool_decide_eq_true_2 in Hst.
  - intros ->. by rewrite bool_decide_eq_false_2 by auto.
  - intros Hne. by rewrite bool_decide_eq_true_2.
Qed.

Lemma l2_accessed_iff_l1_not_hit_witness :
  step demo_cfg demo_state =
    Some (State 1 [0; 32896; 0; 0; 0; 0; 0; 0] demo_image
            [[(0, 1); (-1, -1)]]
            [[(0, 1); (-1, -1)]; [(-1, -1); (-1, -1)]] None false
            (echo demo_cfg ++
             [Access "L1" MISS 0 0 0; Access "L2" MISS 0 0 0])).
Proof.
  assert (twocache demo_cfg = true) as Htwo by reflexivity.
  assert (Py.get (memory demo_state) (pc demo_state) = Some 32896) as Hget
    by reflexivity.
  assert (Py.slice 0 2 (fetch 32896) = "10") as H10 by reflexivity.
  destruct (l2_accessed_iff_l1_not_hit demo_cfg demo_state 32896
              1 0 [0; 32896; 0; 0; 0; 0; 0; 0] demo_image "0"%char
              [[(0, 1); (-1, -1)]] MISS 0 None Htwo Hget H10
              eq_refl eq_refl eq_refl)
    as (_ & _ & _ & Hl2).
  rewrite Hl2; [reflexivity|discriminate].
Defined.

(** ** One access to a set *)

(** C2, as the code has it.  When the scan stops at a slot [i] that holds
    the accessed tag, that slot's counter is set to 0 and then the counter of
    every slot of the set, slot [i] included, grows by 1: slot [i] ends the
    access with counter 1 and every other slot is one older.  A load is a
    HIT, a store stays SW. *)
Theorem tag_match_bumps_every_slot assoc tag is_lw mi (s : list slot) i r :
  length s = assoc ->
  s !! i = Some (tag, r) ->
  (forall j t r', (j < i)%nat -> s !! j = Some (t, r') ->
     t <> tag /\ t <> -1) ->
  exists s',
    access_set assoc tag is_lw mi s
      = Some (s', if is_lw then HIT else SW, mi) /\
    bump (<[i := (tag, 0)]> s) 0 assoc = Some s' /\
    length s' = assoc /\
    s' !! i = Some (tag, 1) /\
    forall j t r', j <> i -> s !! j = Some (t, r') ->
      s' !! j = Some (t, r' + 1).
Proof.
  intros Hl Hi Hbefore. apply (access_set_match assoc tag is_lw mi s i r);
    try done.
  intros k t r' Hk. apply Hbefore. lia.
Qed.

Lemma tag_match_bumps_every_slot_witness :
  exists s',
    access_set 2 5 true None [(5, 3); (7, 1)] = Some (s', HIT, None) /\
    bump (<[0%nat := (5, 0)]> [(5, 3); (7, 1)]) 0 2 = Some s' /\
    length s' = 2%nat /\
    s' !! 0%nat = Some (5, 1) /\
    forall j t r', j <> 0%nat -> [(5, 3); (7, 1)] !! j = Some (t, r') ->
      s' !! j = Some (t, r' + 1).
Proof.
  apply (tag_match_bumps_every_slot 2 5 true None [(5, 3); (7, 1)] 0 3).
  - reflexivity.
  - reflexivity.
  - intros j t r' Hj. lia.
Defined.

(** C2 as stated fails: after a hit on tag 5 in slot 0 the slot has counter
    1, not 0. *)
Lemma tag_match_slot_not_zero :
  ~ (forall s' st mi,
       access_set 2 5 true None [(5, 3); (7, 1)] = Some (s', st, mi) ->
       s' !! 0%nat = Some (5, 0) /\ s' !! 1%nat = Some (7, 2)).
Proof.
  intros H. destruct (H [(5, 1); (7, 2)] HIT None) as [H0 _]; [reflexivity|].
  discriminate H0.
Qed.



(** C4.  The tag is in no slot and no slot is empty: the slot [k] that loses
    its tag has the largest counter of the set and is the first slot with
    that counter; it receives [(tag, 0)], then every counter of the set grows
    by 1, so slot [k] ends with [(tag, 1)].  A load is a MISS. *)
Theorem evict_largest_recency assoc tag is_lw mi (s : list slot) :
  length s = assoc -> (0 < assoc)%nat ->
  (forall j t r, s !! j = Some (t, r) -> t <> tag /\ t <> -1 /\ 0 <= r) ->
  exists k t_k r_k s',
    access_set assoc tag is_lw mi s
      = Some (s', if is_lw then MISS else SW, Some k) /\
    s !! k = Some (t_k, r_k) /\
    (forall j t r, s !! j = Some (t, r) -> r <= r_k) /\
    (forall j t r, (j < k)%nat -> s !! j = Some (t, r) -> r < r_k) /\
    bump (<[k := (tag, 0)]> s) 0 assoc = Some s' /\
    length s' = assoc /\
    s' !! k = Some (tag, 1) /\
    forall j t r, j <> k -> s !! j = Some (t, r) -> s' !! j = Some (t, r + 1).
Proof.
  intros Hl Hpos Hfull.
  apply (access_set_evict assoc tag is_lw mi s); try done.
  - intros k t r _ Hs. destruct (Hfull _ _ _ Hs) as (? & ? & _). done.
  - intros j t r Hs. destruct (Hfull _ _ _ Hs) as (_ & _ & ?). done.
Qed.

Lemma evict_largest_recency_witness :
  exists k t_k r_k s',
    access_set 3 9 true None [(5, 2); (7, 4); (8, 4)]
      = Some (s', MISS, Some k) /\
    [(5, 2); (7, 4); (8, 4)] !! k = Some (t_k, r_k) /\
    (forall j t r, [(5, 2); (7, 4); (8, 4)] !! j = Some (t, r) -> r <= r_k) /\
    (forall j t r, (j < k)%nat ->
       [(5, 2); (7, 4); (8, 4)] !! j = Some (t, r) -> r < r_k) /\
    bump (<[k := (9, 0)]> [(5, 2); (7, 4); (8, 4)]) 0 3 = Some s' /\
    length s' = 3%nat /\
    s' !! k = Some (9, 1) /\
    forall j t r, j <> k -> [(5, 2); (7, 4); (8, 4)] !! j = Some (t, r) ->
      s' !! j = Some (t, r + 1).
Proof.
  apply (evict_largest_recency 3 9 true None [(5, 2); (7, 4); (8, 4)]).
  - reflexivity.
  - lia.
  - intros [|[|[|j]]] t r Hj; simpl in Hj; try discriminate Hj;
      injection Hj as <- <-; lia.
Defined.




(** ** Jumps *)

(** C6.  A 16-bit word with prefix 01 at the current pc, in the running
    loop: the step sets [halt] exactly when the 13-bit target
    [int(instr[3:],2)] is the current pc; any other target is the next pc;
    a [jal] (prefix 011) writes pc+1 to register 7 and a [j] leaves the
    registers alone; memory, caches and output are untouched. *)
Theorem jump_halts_iff_self_target c σ w :
  halt σ = false -> length (regs σ) = 8%nat ->
  Py.get (memory σ) (pc σ) = Some w -> 0 <= w < 2 ^ 16 ->
  Py.slice 0 2 (fetch w) = "01" ->
  exists imm σ',
    Py.int2 (Py.slice_from 3 (fetch w)) = Some imm /\ 0 <= imm < 2 ^ 13 /\
    step c σ = Some σ' /\
    (halt σ' = true <-> imm = pc σ) /\
    (imm <> pc σ -> pc σ' = imm) /\
    (Py.slice 0 3 (fetch w) = "011" ->
       regs σ' = <[7%nat := pc σ + 1]> (regs σ)) /\
    (Py.slice 0 3 (fetch w) <> "011" -> regs σ' = regs σ) /\
    memory σ' = memory σ /\ L1 σ' = L1 σ /\ L2 σ' = L2 σ /\ out σ' = out σ.
Proof.
  intros Hhalt Hregs Hget Hw H01.
  destruct (j_or_jal_spec (pc σ) (regs σ) w Hw Hregs) as (imm & Himm & Hr & Hj).
  exists imm. rewrite (step_jump c σ w Hget H01), Hj.
  destruct (decide (pc σ = imm)) as [Heq|Hne].
  - rewrite bool_decide_eq_true_2 by done. eexists.
    repeat split; simpl; intros; try done; try lia; try congruence.
    + by rewrite decide_True.
    + by rewrite decide_False.
  - rewrite bool_decide_eq_false_2 by done. eexists.
    repeat split; simpl; intros; try done; try lia; try congruence.
    + by rewrite decide_True.
    + by rewrite decide_False.
Qed.

Lemma jump_halts_iff_self_target_witness :
  exists imm σ',
    Py.int2 (Py.slice_from 3 (fetch 16385)) = Some imm /\ 0 <= imm < 2 ^ 13 /\
    step demo_cfg (State 1 (replicate 8 0) demo_image [] [] None false [])
      = Some σ' /\
    (halt σ' = true <-> imm = 1) /\
    (imm <> 1 -> pc σ' = imm) /\
    (Py.slice 0 3 (fetch 16385) = "011" ->
       regs σ' = <[7%nat := 1 + 1]> (replicate 8 0)) /\
    (Py.slice 0 3 (fetch 16385) <> "011" -> regs σ' = replicate 8 0) /\
    memory σ' = demo_image /\ L1 σ' = [] /\ L2 σ' = [] /\ out σ' = [].
Proof.
  apply (jump_halts_iff_self_target demo_cfg
           (State 1 (replicate 8 0) demo_image [] [] None false []) 16385).
  - reflexivity.
  - reflexivity.
  - reflexivity.
  - lia.
  - reflexivity.
Defined.

(** C10.  A [jal] (prefix 011) whose target is the current pc: the step sets
    [halt], leaves the pc where it is, and register 7 holds pc+1. *)
Theorem jal_self_jump_links c σ w :
  length (regs σ) = 8%nat ->
  Py.get (memory σ) (pc σ) = Some w -> 0 <= w < 2 ^ 16 ->
  Py.slice 0 3 (fetch w) = "011" ->
  Py.int2 (Py.slice_from 3 (fetch w)) = Some (pc σ) ->
  exists σ', step c σ = Some σ' /\ halt σ' = true /\ pc σ' = pc σ /\
    regs σ' = <[7%nat := pc σ + 1]> (regs σ) /\
    Py.get (regs σ') 7 = Some (pc σ + 1).
Proof.
  intros Hregs Hget Hw H011 Hself.
  destruct (j_or_jal_spec (pc σ) (regs σ) w Hw Hregs) as (imm & Himm & Hr & Hj).
  rewrite Hself in Himm. simplify_eq.
  rewrite (step_jump c σ w Hget (slice2_of_slice3 _ _ _ _ H011)), Hj.
  rewrite bool_decide_eq_true_2, decide_True by done.
  eexists. split_and!; try done. simpl.
  unfold Py.get, Py.index. rewrite length_insert, Hregs.
  rewrite decide_True by lia. cbn [mbind option_bind].
  apply list_lookup_insert_eq. rewrite Hregs. simpl. lia.
Qed.

Lemma jal_self_jump_links_witness :
  exists σ',
    step demo_cfg (State 2 (replicate 8 0) [0; 0; 24578] [] [] None false [])
      = Some σ' /\
    halt σ' = true /\ pc σ' = 2 /\
    regs σ' = <[7%nat := 2 + 1]> (replicate 8 0) /\
    Py.get (regs σ') 7 = Some (2 + 1).
Proof.
  apply (jal_self_jump_links demo_cfg
           (State 2 (replicate 8 0) [0; 0; 24578] [] [] None false []) 24578).
  - reflexivity.
  - reflexivity.
  - lia.
  - reflexivity.
  - reflexivity.
Defined.

(** ** Configuration *)




(** ** The invariant *)




(** ** Immediates *)

(** C9.  In a 16-bit word the 7-bit immediate is [int(instr[10:],2)], a
    value [low] in 0..63, minus 64 when bit [instr[9]] is 1: the result lies
    in -64..63 (and is negative) for bit 1 and in 0..63 for bit 0. *)
Theorem imm7_range w :
  0 <= w < 2 ^ 16 ->
  exists low msb v,
    Py.int2 (Py.slice_from 10 (fetch w)) = Some low /\
    String.get 9 (fetch w) = Some msb /\
    imm7 (fetch w) = Some v /\
    (msb = "1"%char -> v = low - 64 /\ -64 <= v <= 63 /\ v < 0) /\
    (msb <> "1"%char -> msb = "0"%char /\ v = low /\ 0 <= v <= 63).
Proof.
  intros Hw. destruct (fetch_wf w Hw) as [Hl Hb].
  destruct (int2_bounds (Py.slice_from 10 (fetch w))) as (low & Hlow & Hr).
  { by apply substring_binary. }
  { unfold Py.slice_from. rewrite substring_length; lia. }
  unfold Py.slice_from in Hr. rewrite substring_length in Hr by lia.
  rewrite Hl in Hr. change (2 ^ Z.of_nat (16 - 10)) with 64 in Hr.
  destruct (get_binary (fetch w) 9 Hb) as (msb & Hmsb & Hc); [lia|].
  unfold imm7. rewrite Hlow, Hmsb. cbn [mbind option_bind].
  destruct Hc as [-> | ->].
  - exists low, "0"%char, low. rewrite decide_False by discriminate.
    split_and!; try done; intros; try discriminate; split_and!; try done; lia.
  - exists low, "1"%char, (low - 64). rewrite decide_True by done.
    split_and!; try done; intros; try discriminate; split_and!; try done; lia.
Qed.

Lemma imm7_range_witness :
  exists low msb v,
    Py.int2 (Py.slice_from 10 (fetch 40000)) = Some low /\
    String.get 9 (fetch 40000) = Some msb /\
    imm7 (fetch 40000) = Some v /\
    (msb = "1"%char -> v = low - 64 /\ -64 <= v <= 63 /\ v < 0) /\
    (msb <> "1"%char -> msb = "0"%char /\ v = low /\ 0 <= v <= 63).
Proof. apply (imm7_range 40000). lia. Defined.

(** ** A run of the whole loop *)

(** The demo state is the one [main] starts from. *)
Example demo_start :
  start (Some [Some 2; Some 2; Some 1; Some 4; Some 2; Some 1]) demo_image
    = Some (demo_cfg, demo_state).
Proof. reflexivity. Qed.

(** The demo program loads from address 0 (a miss in both caches) and halts
    on the jump to itself. *)
Example demo_run :
  run 5 demo_cfg demo_state =
    Halted (State 1 [0; 32896; 0; 0; 0; 0; 0; 0] demo_image
              [[(0, 1); (-1, -1)]]
              [[(0, 1); (-1, -1)]; [(-1, -1); (-1, -1)]] None true
              (echo demo_cfg ++
               [Access "L1" MISS 0 0 0; Access "L2" MISS 0 0 0])).
Proof. reflexivity. Qed.

(** [int(s, 2)] on some literals: the prefix, the sign, underscores and
    blanks are read; a lone prefix, a prefix after other digits and doubled
    or trailing underscores are not. *)
Example int2_literals :
  map Py.int2 ["101"; "0b1"; " -0B1_0 "; "0b_1"; "+1";
               ""; "0b"; "b10"; "00b"; "0000000b10010"; "1__0"; "1_"; "12"]
    = [Some 5; Some 1; Some (-2); Some 1; Some 1;
       None; None; None; None; None; None; None; None].
Proof. reflexivity. Qed.

(** A negative memory word is executed like any other.  The string of -18
    is "0000000000b10010": prefix 000, [instr[9:12]] is "0b1", which
    [int(..., 2)] reads as 1, and the low four characters 0010 select the
    bitwise and. *)
Example negative_word_step :
  fetch (-18) = "0000000000b10010" /\
  step demo_cfg (State 0 [3; 5; 0; 0; 0; 0; 0; 0] [-18] [] [] None false [])
    = Some (State 1 [3; 3; 0; 0; 0; 0; 0; 0] [-18] [] [] None false []).
Proof. split; reflexivity. Qed.

(** * Further properties of the code *)

(** ** The instruction string and the bits of the word *)

Lemma app_assoc_str (a b c : string) : (a +:+ b) +:+ c = a +:+ (b +:+ c).
Proof.
  induction a as [|x a IH]; [done|].
  change (String x ((a +:+ b) +:+ c) = String x (a +:+ (b +:+ c))).
  by rewrite IH.
Qed.

Lemma bits_length n w : String.length (bits n w) = n.
Proof. induction n; simpl; auto. Qed.

Lemma bits_binary n w : binary (bits n w).
Proof.
  induction n; simpl; [done|]. split; [|done]. destruct (Z.testbit _ _); auto.
Qed.

Lemma bits_snoc n : forall w,
  bits (S n) w = bits n (w / 2) +:+ String (digit (Z.testbit w 0)) "".
Proof.
  induction n as [|n IH]; intros w; [done|].
  change (bits (S (S n)) w)
    with (String (digit (Z.testbit w (Z.of_nat (S n)))) (bits (S n) w)).
  rewrite IH.
  change (bits (S n) (w / 2))
    with (String (digit (Z.testbit (w / 2) (Z.of_nat n))) (bits n (w / 2))).
  rewrite Z.div2_bits, Nat2Z.inj_succ by lia. done.
Qed.

Lemma bin_pos_bits p :
  Py.bin_pos p = bits (Pos.size_nat p) (Z.pos p) /\
  Z.pos p < 2 ^ Z.of_nat (Pos.size_nat p).
Proof.
  induction p as [q [IH Hlt]|q [IH Hlt]|].
  - cbn [Py.bin_pos Pos.size_nat]. rewrite bits_snoc, IH. split.
    + replace (Z.pos q~1 / 2) with (Z.pos q)
        by (rewrite Pos2Z.inj_xI; apply Z.div_unique with 1; lia).
      done.
    + rewrite Nat2Z.inj_succ, Z.pow_succ_r by lia. lia.
  - cbn [Py.bin_pos Pos.size_nat]. rewrite bits_snoc, IH. split.
    + replace (Z.pos q~0 / 2) with (Z.pos q)
        by (rewrite Pos2Z.inj_xO; apply Z.div_unique with 0; lia).
      done.
    + rewrite Nat2Z.inj_succ, Z.pow_succ_r by lia. lia.
  - done.
Qed.

Lemma zeros_bits k : forall n w,
  0 <= w < 2 ^ Z.of_nat n -> Py.zeros k +:+ bits n w = bits (k + n) w.
Proof.
  induction k as [|k IH]; intros n w Hw; [done|].
  change (String "0" (Py.zeros k +:+ bits n w) =
          String (digit (Z.testbit w (Z.of_nat (k + n)))) (bits (k + n) w)).
  rewrite IH by done. f_equal.
  destruct (decide (w = 0)) as [->|Hne]; [by rewrite Z.bits_0|].
  rewrite Z.bits_above_log2; [done|lia|].
  apply Z.log2_lt_pow2; [lia|].
  eapply Z.lt_le_trans; [apply Hw|]. apply Z.pow_le_mono_r; lia.
Qed.

Lemma fetch_pos_bits p :
  fetch (Z.pos p) =
    bits (16 - Pos.size_nat p + Pos.size_nat p) (Z.pos p).
Proof.
  unfold fetch. cbn [Py.bin2].
  rewrite zfill_binary by apply bin_pos_binary.
  destruct (bin_pos_bits p) as [Hb Hlt]. rewrite Hb, bits_length.
  apply zeros_bits. lia.
Qed.

Lemma fetch_bits w : 0 <= w < 2 ^ 16 -> fetch w = bits 16 w.
Proof.
  intros Hw. destruct w as [|p|p]; [by vm_compute| |lia].
  rewrite fetch_pos_bits. f_equal.
  destruct (bin_pos_bits p) as [Hb _].
  destruct (bin_pos_length p 16) as [_ Hle];
    [change (Z.of_nat 16) with 16; lia|].
  rewrite Hb, bits_length in Hle. lia.
Qed.

Lemma substring_bits n : forall a m w,
  (a + m <= n)%nat ->
  substring a m (bits n w) = bits m (w / 2 ^ Z.of_nat (n - a - m)).
Proof.
  induction n as [|n IH]; intros a m w Hle.
  - assert (a = 0 /\ m = 0)%nat as [-> ->] by lia. done.
  - destruct a as [|a].
    + destruct m as [|m]; [done|].
      cbn [bits substring]. rewrite IH by lia. f_equal.
      * f_equal. rewrite Z.div_pow2_bits by lia. f_equal. lia.
      * f_equal. f_equal. f_equal. lia.
    + cbn [bits substring]. rewrite IH by lia. f_equal.
Qed.

Lemma int2_acc_bits n : forall w acc,
  Py.int2_acc acc (bits n w)
    = Some (acc * 2 ^ Z.of_nat n + w mod 2 ^ Z.of_nat n).
Proof.
  induction n as [|n IH]; intros w acc.
  - simpl. rewrite Z.mod_1_r. f_equal. lia.
  - cbn [bits Py.int2_acc].
    assert (w mod 2 ^ Z.of_nat (S n) =
            w mod 2 ^ Z.of_nat n + 2 ^ Z.of_nat n * ((w / 2 ^ Z.of_nat n) mod 2))
      as Hsplit.
    { rewrite Nat2Z.inj_succ, Z.pow_succ_r, (Z.mul_comm 2) by lia.
      apply Z.rem_mul_r; lia. }
    destruct (Z.testbit w (Z.of_nat n)) eqn:Hb; cbn [digit].
    + apply Z.testbit_true in Hb; [|lia].
      rewrite decide_False by discriminate. rewrite decide_True by done.
      rewrite IH, Hsplit, Hb, Nat2Z.inj_succ, Z.pow_succ_r by lia. f_equal. lia.
    + apply Z.testbit_false in Hb; [|lia].
      rewrite decide_True by done.
      rewrite IH, Hsplit, Hb, Nat2Z.inj_succ, Z.pow_succ_r by lia. f_equal. lia.
Qed.

Lemma int2_bits n w :
  (0 < n)%nat -> Py.int2 (bits n w) = Some (w mod 2 ^ Z.of_nat n).
Proof.
  intros Hn. rewrite int2_binary; [by rewrite int2_acc_bits|apply bits_binary|].
  destruct n; [lia|done].
Qed.

Lemma slice_field w (a b : nat) :
  0 <= w < 2 ^ 16 -> (a < b <= 16)%nat ->
  Py.int2 (Py.slice a b (fetch w))
    = Some ((w / 2 ^ Z.of_nat (16 - b)) mod 2 ^ Z.of_nat (b - a)).
Proof.
  intros Hw Hab. rewrite fetch_bits by done. unfold Py.slice.
  rewrite substring_bits by lia.
  replace (16 - a - (b - a))%nat with (16 - b)%nat by lia.
  apply int2_bits. lia.
Qed.

Lemma slice_bits w (a b : nat) :
  0 <= w < 2 ^ 16 -> (a <= b <= 16)%nat ->
  Py.slice a b (fetch w) = bits (b - a) (w / 2 ^ Z.of_nat (16 - b)).
Proof.
  intros Hw Hab. rewrite fetch_bits by done. unfold Py.slice.
  rewrite substring_bits by lia. do 3 f_equal. lia.
Qed.

Lemma slice_from_bits w (a : nat) :
  0 <= w < 2 ^ 16 -> (a <= 16)%nat ->
  Py.slice_from a (fetch w) = bits (16 - a) w.
Proof.
  intros Hw Ha. rewrite fetch_bits by done. unfold Py.slice_from.
  rewrite bits_length, substring_bits by lia.
  replace (16 - a - (16 - a))%nat with 0%nat by lia.
  by rewrite Z.pow_0_r, Z.div_1_r.
Qed.

Lemma get_bits n : forall k w,
  (k < n)%nat ->
  String.get k (bits n w) = Some (digit (Z.testbit w (Z.of_nat (n - 1 - k)))).
Proof.
  induction n as [|n IH]; intros k w Hk; [lia|].
  destruct k as [|k]; cbn [bits String.get].
  - do 3 f_equal. lia.
  - rewrite IH by lia. do 4 f_equal. lia.
Qed.

Lemma bits_eq_iff n x y :
  0 <= x < 2 ^ Z.of_nat n -> 0 <= y < 2 ^ Z.of_nat n ->
  bits n x = bits n y <-> x = y.
Proof.
  intros Hx Hy. split; [|by intros ->]. intros Heq.
  assert (Py.int2_acc 0 (bits n x) = Py.int2_acc 0 (bits n y)) as H
    by by rewrite Heq.
  rewrite !int2_acc_bits, !Z.mod_small in H by done. by simplify_eq.
Qed.

Lemma bits_mod n w : bits n w = bits n (w mod 2 ^ Z.of_nat n).
Proof.
  assert (forall m, (m <= n)%nat -> bits m w = bits m (w mod 2 ^ Z.of_nat n))
    as H; [|by apply H].
  induction m as [|m IH]; intros Hm; [done|]. cbn [bits].
  rewrite IH by lia. do 2 f_equal.
  rewrite Z.mod_pow2_bits_low; [done|lia].
Qed.

(** X1.  The instruction string is the word again: [int(instr, 2)] of
    [bin(w)[2:].zfill(16)] is [w] for every non-negative word, whatever its
    size, and a word below 2^16 gives exactly 16 binary digits. *)
Theorem instruction_string_round_trip w :
  0 <= w ->
  Py.int2 (fetch w) = Some w /\
  (w < 2 ^ 16 -> String.length (fetch w) = 16%nat /\ binary (fetch w)).
Proof.
  intros Hw. split; [|intros Hlt; by apply fetch_wf].
  destruct w as [|p|p]; [by vm_compute| |lia].
  rewrite fetch_pos_bits.
  destruct (bin_pos_bits p) as [_ Hlt].
  assert (0 < Pos.size_nat p)%nat by (destruct p; simpl; lia).
  rewrite int2_bits by lia. f_equal. apply Z.mod_small. split; [lia|].
  eapply Z.lt_le_trans; [apply Hlt|]. apply Z.pow_le_mono_r; lia.
Qed.

Lemma instruction_string_round_trip_witness :
  Py.int2 (fetch 70000) = Some 70000 /\
  (70000 < 2 ^ 16 ->
   String.length (fetch 70000) = 16%nat /\ binary (fetch 70000)).
Proof. apply (instruction_string_round_trip 70000). lia. Defined.

Lemma int2_acc_inj (s : string) : forall t acc,
  binary s -> binary t -> String.length s = String.length t ->
  Py.int2_acc acc s = Py.int2_acc acc t -> s = t.
Proof.
  induction s as [|c s IH]; intros [|d t] acc Hs Ht Hl Heq; simpl in Hl;
    try done.
  destruct Hs as [Hc Hs], Ht as [Hd Ht]. injection Hl as Hl.
  cbn [Py.int2_acc] in Heq.
  destruct (int2_acc_bounds s (2 * acc) Hs) as (v0 & Hv0 & Hr0).
  destruct (int2_acc_bounds s (2 * acc + 1) Hs) as (v1 & Hv1 & Hr1).
  destruct (int2_acc_bounds t (2 * acc) Ht) as (u0 & Hu0 & Hq0).
  destruct (int2_acc_bounds t (2 * acc + 1) Ht) as (u1 & Hu1 & Hq1).
  rewrite Hl in Hr0, Hr1.
  assert (0 < 2 ^ Z.of_nat (String.length t)) by (apply Z.pow_pos_nonneg; lia).
  destruct Hc as [-> | ->], Hd as [-> | ->].
  - rewrite !decide_True in Heq by done. f_equal. by eapply IH.
  - rewrite decide_True in Heq by done.
    rewrite decide_False, decide_True in Heq by done.
    rewrite Hv0, Hu1 in Heq. injection Heq as ->. lia.
  - rewrite (decide_False (P := "1"%char = "0"%char)) in Heq by done.
    rewrite !decide_True in Heq by done.
    rewrite Hv1, Hu0 in Heq. injection Heq as ->. lia.
  - rewrite !(decide_False (P := "1"%char = "0"%char)) in Heq by done.
    rewrite !decide_True in Heq by done. f_equal. by eapply IH.
Qed.

(** X28.  The instruction string that the loop decodes is the digit string
    of the file: 16 binary digits, read by [int(..., 2)] as the loader
    does, give a word below 2^16 whose [bin(w)[2:].zfill(16)] is the same
    16 digits. *)
Theorem instruction_string_of_digits (s : string) :
  binary s -> String.length s = 16%nat ->
  exists w, Py.int2 s = Some w /\ 0 <= w < 2 ^ 16 /\ fetch w = s.
Proof.
  intros Hb Hl. destruct (int2_bounds s Hb) as (w & Hw & Hr); [lia|].
  rewrite Hl in Hr. change (Z.of_nat 16) with 16 in Hr.
  exists w. split_and!; try done; try lia.
  rewrite fetch_bits by done. symmetry.
  apply (int2_acc_inj s (bits 16 w) 0); [done|apply bits_binary| |].
  - by rewrite bits_length.
  - rewrite int2_acc_bits. change (Z.of_nat 16) with 16.
    rewrite Z.mod_small by done.
    rewrite <- int2_binary by (done || (intros ->; done)). exact Hw.
Qed.

Lemma instruction_string_of_digits_witness :
  exists w, Py.int2 "1000000010000000" = Some w /\ 0 <= w < 2 ^ 16 /\
            fetch w = "1000000010000000".
Proof.
  apply (instruction_string_of_digits "1000000010000000").
  - simpl. repeat split; auto.
  - reflexivity.
Defined.

(** X2.  A slice [instr[a:b]] of the instruction string of a 16-bit word,
    read by [int(..., 2)], is the bit field of the word: the word shifted
    right by [16 - b] and masked to [b - a] bits. *)
Theorem instruction_slice_is_bit_field w (a b : nat) :
  0 <= w < 2 ^ 16 -> (a < b <= 16)%nat ->
  Py.int2 (Py.slice a b (fetch w))
    = Some (Z.land (Z.shiftr w (Z.of_nat (16 - b))) (Z.ones (Z.of_nat (b - a)))).
Proof.
  intros Hw Hab. rewrite slice_field by done.
  by rewrite Z.shiftr_div_pow2, Z.land_ones by lia.
Qed.

Lemma instruction_slice_is_bit_field_witness :
  Py.int2 (Py.slice 3 6 (fetch 40000))
    = Some (Z.land (Z.shiftr 40000 (Z.of_nat (16 - 6)))
              (Z.ones (Z.of_nat (6 - 3)))).
Proof. apply (instruction_slice_is_bit_field 40000 3 6); lia. Defined.

Lemma imm7_eval w :
  0 <= w < 2 ^ 16 -> imm7 (fetch w) = Some ((w + 64) mod 128 - 64).
Proof.
  intros Hw. unfold imm7.
  rewrite slice_from_bits, int2_bits by (done || lia).
  rewrite fetch_bits, get_bits by (done || lia).
  cbn [mbind option_bind].
  change (2 ^ Z.of_nat (16 - 10)) with 64.
  change (Z.of_nat (16 - 1 - 9)) with 6.
  assert (w mod 128 = w mod 64 + 64 * ((w / 64) mod 2)) as Hsplit
    by (apply (Z.rem_mul_r w 64 2); lia).
  assert (0 <= w mod 64 < 64) by (apply Z.mod_pos_bound; lia).
  assert ((w + 64) mod 128 = (w mod 128 + 64) mod 128) as Hplus
    by (by rewrite Zplus_mod_idemp_l).
  destruct (Z.testbit w 6) eqn:Hb; cbn [digit].
  - apply Z.testbit_true in Hb; [|lia]. change (2 ^ 6) with 64 in Hb.
    rewrite decide_True by done. f_equal.
    rewrite Hplus, Hsplit, Hb.
    replace (w mod 64 + 64 * 1 + 64) with (w mod 64 + 1 * 128) by lia.
    rewrite Z.mod_add, (Z.mod_small (w mod 64) 128) by lia. lia.
  - apply Z.testbit_false in Hb; [|lia]. change (2 ^ 6) with 64 in Hb.
    rewrite decide_False by discriminate. f_equal.
    rewrite Hplus, Hsplit, Hb.
    rewrite (Z.mod_small (w mod 64 + 64 * 0 + 64) 128) by lia. lia.
Qed.

Lemma imm7_bounds w : -64 <= (w + 64) mod 128 - 64 <= 63.
Proof. pose proof (Z.mod_pos_bound (w + 64) 128). lia. Qed.

(** X3.  The immediate of [tworegImm], [memImm] and [jeq] is the two's
    complement reading of the low seven bits of the word: it lies in
    -64..63 and is congruent to the word modulo 128. *)
Theorem immediate_is_twos_complement w :
  0 <= w < 2 ^ 16 ->
  exists v, imm7 (fetch w) = Some v /\ -64 <= v <= 63 /\ v mod 128 = w mod 128.
Proof.
  intros Hw. rewrite imm7_eval by done. eexists. split; [done|].
  split; [apply imm7_bounds|].
  rewrite Zminus_mod_idemp_l. f_equal. lia.
Qed.

Lemma immediate_is_twos_complement_witness :
  exists v, imm7 (fetch 40000) = Some v /\ -64 <= v <= 63 /\
            v mod 128 = 40000 mod 128.
Proof. apply (immediate_is_twos_complement 40000). lia. Defined.

(** ** One access to a set, once more *)

(** The slot where an access leaves its tag. *)
Lemma access_set_installs assoc tag is_lw mi (s : list slot) :
  (0 < assoc)%nat -> tag <> -1 -> set_ok assoc s ->
  exists s' st mi' m,
    access_set assoc tag is_lw mi s = Some (s', st, mi') /\
    s' !! m = Some (tag, 1) /\
    forall j t r, j <> m -> s' !! j = Some (t, r) -> t <> -1 ->
      exists r0, s !! j = Some (t, r0) /\ r = r0 + 1.
Proof.
  intros Hpos Htag [Hl Hu Hpre Hrec].
  destruct (first_stop tag s (length s)) as [Hp|(m & t & r & Hm & Hs & Ht & Hp)];
    [lia| |].
  - rewrite Hl in Hp.
    destruct (access_set_evict assoc tag is_lw mi s)
      as (k & t_k & r_k & s' & -> & Hk & _ & _ & _ & Hl' & Hk' & Ho); try done.
    { intros j t r Hj. eapply Hrec; [done|].
      apply (Hp j t r); [apply lookup_lt_Some in Hj; lia|done]. }
    eexists _, _, _, k. split_and!; try done.
    intros j t r Hne Hj _. destruct (lookup_lt_is_Some_2 s j) as [[t0 r0] H0].
    { apply lookup_lt_Some in Hj. lia. }
    rewrite (Ho _ _ _ Hne H0) in Hj. simplify_eq. eauto.
  - destruct (decide (t = tag)) as [->|Hne].
    + destruct (access_set_match assoc tag is_lw mi s m r)
        as (s' & -> & _ & Hl' & Hm' & Ho); try done.
      eexists _, _, _, m. split_and!; try done.
      intros j t r0 Hjm Hj _. destruct (lookup_lt_is_Some_2 s j) as [[t0 r1] H0].
      { apply lookup_lt_Some in Hj. lia. }
      rewrite (Ho _ _ _ Hjm H0) in Hj. simplify_eq. eauto.
    + destruct Ht as [?| ->]; [done|].
      destruct (access_set_fill assoc tag is_lw mi s m r)
        as (s' & -> & _ & Hl' & Hm' & Hbelow & Habove); try done.
      eexists _, _, _, m. split_and!; try done.
      intros j t r0 Hjm Hj Hoc. destruct (decide (j < m)%nat) as [Hlt|Hge].
      * destruct (lookup_lt_is_Some_2 s j) as [[t0 r1] H0].
        { apply lookup_lt_Some in Hj. lia. }
        rewrite (Hbelow _ _ _ Hlt H0) in Hj. simplify_eq. eauto.
      * rewrite Habove in Hj by lia. exfalso. apply Hoc.
        eapply (Hpre m j); [lia|done|done].
Qed.

(** In a set that satisfies the invariant the scan reaches a resident tag. *)
Lemma resident_reached assoc tag (s : list slot) m r :
  set_ok assoc s -> tag <> -1 -> s !! m = Some (tag, r) -> passed tag s 0 m.
Proof.
  intros [Hl Hu Hpre Hrec] Htag Hm k t r' Hk Hs. split.
  - intros ->. assert (k = m) by (eapply Hu; done). lia.
  - intros ->. apply Htag. eapply (Hpre k m); [lia|done|done].
Qed.

Lemma access_set_twice assoc tag is_lw mi (s : list slot) :
  (0 < assoc)%nat -> tag <> -1 -> set_ok assoc s ->
  exists s1 st1 mi1 s2 mi2,
    access_set assoc tag is_lw mi s = Some (s1, st1, mi1) /\
    access_set assoc tag true mi1 s1 = Some (s2, HIT, mi2).
Proof.
  intros Hpos Htag Hok.
  destruct (access_set_ok assoc tag is_lw mi s) as (s1 & st1 & mi1 & Ha & Hok1);
    try done.
  destruct (access_set_installs assoc tag is_lw mi s)
    as (s1' & st1' & mi1' & m & Ha' & Hm & _); try done.
  rewrite Ha in Ha'. simplify_eq.
  destruct (access_set_match assoc tag true mi1' s1' m 1) as (s2 & H2 & _).
  - by destruct Hok1.
  - done.
  - by eapply resident_reached.
  - eauto 10.
Qed.

Lemma cache_access_in_range blocksize numlines assoc is_lw mem_val mi
    (L : list (list slot)) :
  0 < blocksize -> 0 < numlines -> length L = Z.to_nat numlines ->
  cache_access blocksize numlines assoc is_lw mem_val mi L =
    s ← L !! Z.to_nat ((mem_val / blocksize) mod numlines);
    match access_set (Z.to_nat assoc) (mem_val / blocksize / numlines)
            is_lw mi s with
    | None => None
    | Some (s', st, mi') =>
        Some (<[Z.to_nat ((mem_val / blocksize) mod numlines) := s']> L,
              st, (mem_val / blocksize) mod numlines, mi')
    end.
Proof.
  intros Hbs Hnl HL. unfold cache_access, Py.floordiv, Py.modulo.
  repeat (rewrite decide_False by lia; cbn [mbind option_bind]).
  assert (0 <= (mem_val / blocksize) mod numlines < numlines)
    by (apply Z.mod_pos_bound; lia).
  rewrite py_get_nonneg by lia.
  destruct (L !! _) as [s|]; [|done]. cbn [mbind option_bind].
  destruct (access_set _ _ _ _ _) as [[[s' st] mi']|]; [|done].
  by rewrite py_set_nonneg by lia.
Qed.

Lemma bump_length n : forall j (s s' : list slot),
  bump s j n = Some s' -> length s' = length s.
Proof.
  induction n as [|n IH]; intros j s s'; simpl.
  - by intros [= ->].
  - destruct (s !! j) as [[t r]|]; [|done]. cbn [mbind option_bind].
    intros Hb. apply IH in Hb. by rewrite length_insert in Hb.
Qed.

Lemma probe_length assoc tag is_lw n : forall i (s s' : list slot) d st,
  probe assoc tag is_lw s i n = Some (s', d, st) -> length s' = length s.
Proof.
  induction n as [|n IH]; intros i s s' d st; simpl.
  - by intros [= ->].
  - destruct (s !! i) as [[t r]|]; [|done]. cbn [mbind option_bind].
    repeat case_decide.
    + destruct (bump _ _ _) as [s1|] eqn:Hb; [|done]. cbn [mbind option_bind].
      intros [= <- _ _]. apply bump_length in Hb.
      by rewrite length_insert in Hb.
    + destruct (bump _ _ _) as [s1|] eqn:Hb; [|done]. cbn [mbind option_bind].
      intros [= <- _ _]. apply bump_length in Hb.
      by rewrite length_insert in Hb.
    + apply IH.
Qed.

Lemma access_set_length assoc tag is_lw mi (s s' : list slot) st mi' :
  access_set assoc tag is_lw mi s = Some (s', st, mi') -> length s' = length s.
Proof.
  unfold access_set.
  destruct (probe assoc tag is_lw s 0 assoc) as [[[s1 d] st1]|] eqn:Hp; [|done].
  apply probe_length in Hp. destruct d.
  - by intros [= <- _ _].
  - destruct (max_scan _ _ _ _ _) as [[m k]|]; [|done].
    cbn [mbind option_bind]. destruct k as [k|]; [|done].
    cbn [mbind option_bind]. case_decide; [|done].
    destruct (bump _ _ _) as [s2|] eqn:Hb; [|done]. cbn [mbind option_bind].
    intros [= <- _ _]. apply bump_length in Hb.
    rewrite length_insert in Hb. congruence.
Qed.

Lemma cache_access_length blocksize numlines assoc is_lw mem_val mi
    (L L' : list (list slot)) st line mi' :
  cache_access blocksize numlines assoc is_lw mem_val mi L
    = Some (L', st, line, mi') ->
  length L' = length L.
Proof.
  unfold cache_access, Py.floordiv, Py.modulo.
  destruct (decide (blocksize = 0)); cbn [mbind option_bind]; [done|].
  destruct (decide (numlines = 0)); cbn [mbind option_bind]; [done|].
  destruct (Py.get L _) as [s|]; [|done]. cbn [mbind option_bind].
  destruct (access_set _ _ _ _ _) as [[[s' st'] mi'']|]; [|done].
  destruct (Py.set L _ s') as [L1|] eqn:Hset; [|done].
  cbn [mbind option_bind]. intros [= <- _ _ _].
  unfold Py.set in Hset. destruct (Py.index L _); [|done].
  cbn [mbind option_bind] in Hset. injection Hset as <-. apply length_insert.
Qed.

Lemma fresh_cache_ok assoc numlines :
  cache_ok assoc numlines (make_cache numlines assoc).
Proof.
  split; [apply length_replicate|]. apply Forall_replicate, fresh_set_ok.
Qed.

(** X4.  In a set that satisfies the invariant, a load returns and is a HIT
    exactly when the tag is in one of the slots; otherwise it is a MISS. *)
Theorem load_hit_iff_resident assoc tag mi (s : list slot) :
  (0 < assoc)%nat -> tag <> -1 -> set_ok assoc s ->
  exists s' st mi',
    access_set assoc tag true mi s = Some (s', st, mi') /\
    (st = HIT \/ st = MISS) /\
    (st = HIT <-> exists i r, s !! i = Some (tag, r)).
Proof.
  intros Hpos Htag Hok. pose proof Hok as [Hl Hu Hpre Hrec].
  destruct (first_stop tag s (length s)) as [Hp|(m & t & r & Hm & Hs & Ht & Hp)];
    [lia| |].
  - rewrite Hl in Hp.
    destruct (access_set_evict assoc tag true mi s)
      as (k & t_k & r_k & s' & -> & _); try done.
    { intros j t r Hj. eapply Hrec; [done|].
      apply (Hp j t r); [apply lookup_lt_Some in Hj; lia|done]. }
    eexists _, _, _. split; [done|]. split; [by right|].
    split; [done|]. intros (i & r & Hi). exfalso.
    destruct (Hp i tag r) as [? _]; [apply lookup_lt_Some in Hi; lia|done|done].
  - destruct (decide (t = tag)) as [->|Hne].
    + destruct (access_set_match assoc tag true mi s m r) as (s' & -> & _);
        try done.
      eexists _, _, _. split; [done|]. split; [by left|]. split; eauto.
    + destruct Ht as [?| ->]; [done|].
      destruct (access_set_fill assoc tag true mi s m r) as (s' & -> & _);
        try done.
      eexists _, _, _. split; [done|]. split; [by right|].
      split; [done|]. intros (i & r' & Hi). exfalso.
      destruct (decide (i < m)%nat) as [Hlt|Hge].
      * by destruct (Hp i tag r' ltac:(lia) Hi).
      * destruct (decide (i = m)) as [->|]; [congruence|].
        apply Htag. eapply (Hpre m i); [lia|done|done].
Qed.

Lemma load_hit_iff_resident_witness :
  exists s' st mi',
    access_set 2 5 true None (replicate 2 empty_slot) = Some (s', st, mi') /\
    (st = HIT \/ st = MISS) /\
    (st = HIT <-> exists i r, replicate 2 empty_slot !! i = Some (5, r)).
Proof.
  apply (load_hit_iff_resident 2 5 None (replicate 2 empty_slot)).
  - lia.
  - lia.
  - apply fresh_set_ok.
Defined.

(** X5.  After an access (load or store) to an address, a load of any
    address of the same block is a HIT in the same line: positive block
    size, lines and associativity, a non-negative address, a cache that
    satisfies the invariant. *)
Theorem same_block_hits blocksize numlines assoc is_lw a b mi
    (L : list (list slot)) :
  0 < blocksize -> 0 < numlines -> 0 < assoc ->
  0 <= a -> a / blocksize = b / blocksize ->
  cache_ok assoc numlines L ->
  exists L1 st1 line mi1 L2 mi2,
    cache_access blocksize numlines assoc is_lw a mi L
      = Some (L1, st1, line, mi1) /\
    cache_access blocksize numlines assoc true b mi1 L1
      = Some (L2, HIT, line, mi2).
Proof.
  intros Hbs Hnl Ha Hpos Hblock [HL HF].
  rewrite cache_access_in_range by done.
  set (bn := a / blocksize).
  assert (0 <= bn) by (apply Z.div_pos; lia).
  assert (0 <= bn mod numlines < numlines) by (apply Z.mod_pos_bound; lia).
  assert (0 <= bn / numlines) by (apply Z.div_pos; lia).
  destruct (lookup_lt_is_Some_2 L (Z.to_nat (bn mod numlines))) as [s Hs];
    [lia|].
  rewrite Hs. cbn [mbind option_bind].
  destruct (access_set_twice (Z.to_nat assoc) (bn / numlines) is_lw mi s)
    as (s1 & st1 & mi1 & s2 & mi2 & -> & H2); [lia|lia|by eapply Forall_lookup_1|].
  eexists _, _, _, _, _, _. split; [done|].
  rewrite cache_access_in_range by (done || by rewrite length_insert).
  rewrite <- Hblock. fold bn.
  rewrite list_lookup_insert_eq by lia. cbn [mbind option_bind].
  rewrite H2. done.
Qed.

Lemma same_block_hits_witness :
  exists L1 st1 line mi1 L2 mi2,
    cache_access 4 2 2 false 5 None (make_cache 2 2)
      = Some (L1, st1, line, mi1) /\
    cache_access 4 2 2 true 7 mi1 L1 = Some (L2, HIT, line, mi2).
Proof.
  apply (same_block_hits 4 2 2 false 5 7 None (make_cache 2 2)).
  - lia.
  - lia.
  - lia.
  - lia.
  - reflexivity.
  - apply fresh_cache_ok.
Defined.

(** X6.  An access that returns reports the line
    [(addr // blocksize) % numlines] and changes the cache in that line
    only: the number of lines, the other lines and the number of slots of
    the line are what they were. *)
Theorem access_touches_one_line blocksize numlines assoc is_lw mem_val mi
    (L L' : list (list slot)) st line mi' :
  cache_access blocksize numlines assoc is_lw mem_val mi L
    = Some (L', st, line, mi') ->
  line = (mem_val / blocksize) mod numlines /\
  length L' = length L /\
  exists i s s',
    Py.index L line = Some i /\ L !! i = Some s /\ L' !! i = Some s' /\
    length s' = length s /\
    forall j, j <> i -> L' !! j = L !! j.
Proof.
  unfold cache_access, Py.floordiv, Py.modulo.
  destruct (decide (blocksize = 0)); cbn [mbind option_bind]; [done|].
  destruct (decide (numlines = 0)); cbn [mbind option_bind]; [done|].
  unfold Py.get, Py.set.
  destruct (Py.index L _) as [i|] eqn:Hi; [|done]. cbn [mbind option_bind].
  destruct (L !! i) as [s|] eqn:Hs; [|done]. cbn [mbind option_bind].
  destruct (access_set _ _ _ _ _) as [[[s' st'] mi'']|] eqn:Ha; [|done].
  intros [= <- <- <- <-]. split; [done|]. rewrite length_insert.
  split; [done|]. exists i, s, s'. split_and!; try done.
  - apply list_lookup_insert_eq. by eapply lookup_lt_Some.
  - by eapply access_set_length.
  - intros j Hj. by apply list_lookup_insert_ne.
Qed.

Lemma access_touches_one_line_witness :
  1 = (5 / 1) mod 2 /\
  length [[(-1, -1); (-1, -1)]; [(2, 1); (-1, -1)]] = length (make_cache 2 2) /\
  exists i s s',
    Py.index (make_cache 2 2) 1 = Some i /\ make_cache 2 2 !! i = Some s /\
    [[(-1, -1); (-1, -1)]; [(2, 1); (-1, -1)]] !! i = Some s' /\
    length s' = length s /\
    forall j, j <> i ->
      [[(-1, -1); (-1, -1)]; [(2, 1); (-1, -1)]] !! j = make_cache 2 2 !! j.
Proof.
  apply (access_touches_one_line 1 2 2 true 5 None (make_cache 2 2)
           [[(-1, -1); (-1, -1)]; [(2, 1); (-1, -1)]] MISS 1 None).
  reflexivity.
Defined.



(** X8.  The counters of the occupied slots of the fresh set are positive
    and pairwise distinct (it has no occupied slot).  In a set that
    satisfies the invariant [set_ok] and has such counters, an access with
    positive associativity and a tag other than -1 returns, keeps the
    counters positive and pairwise distinct, leaves the accessed tag with
    counter 1 and every other occupied slot with a counter of at least 2.
    An access with tag -1 is not covered: it can leave two occupied slots
    with the same counter. *)
Theorem counters_stay_distinct assoc tag is_lw mi (s : list slot) :
  (0 < assoc)%nat -> tag <> -1 -> set_ok assoc s -> counters_ok s ->
  counters_ok (replicate assoc empty_slot) /\
  exists s' st mi' m,
    access_set assoc tag is_lw mi s = Some (s', st, mi') /\
    counters_ok s' /\
    s' !! m = Some (tag, 1) /\
    forall j t r, j <> m -> s' !! j = Some (t, r) -> t <> -1 -> 2 <= r.
Proof.
  intros Hpos Htag Hok Hc. split.
  { intros i j t r t' r' [? _]%lookup_replicate. unfold empty_slot in *.
    congruence. }
  destruct (access_set_installs assoc tag is_lw mi s)
    as (s' & st & mi' & m & Ha & Hm & Hothers); try done.
  assert (forall j t r, j <> m -> s' !! j = Some (t, r) -> t <> -1 -> 2 <= r)
    as Hge2.
  { intros j t r Hj Hs Hoc. destruct (Hothers _ _ _ Hj Hs Hoc) as (r0 & H0 & ->).
    destruct (Hc _ _ _ _ _ _ H0 H0 Hoc Hoc) as [? _]. lia. }
  exists s', st, mi', m. split_and!; try done.
  intros i j t r t' r' Hi Hj Hoc Hoc'.
  destruct (decide (i = m)) as [->|Him], (decide (j = m)) as [->|Hjm].
  - rewrite Hm in Hi. simplify_eq. split; [lia|done].
  - rewrite Hm in Hi. simplify_eq. pose proof (Hge2 _ _ _ Hjm Hj Hoc').
    split; lia.
  - rewrite Hm in Hj. simplify_eq. pose proof (Hge2 _ _ _ Him Hi Hoc).
    split; lia.
  - pose proof (Hge2 _ _ _ Him Hi Hoc).
    destruct (Hothers _ _ _ Him Hi Hoc) as (r0 & H0 & ->).
    destruct (Hothers _ _ _ Hjm Hj Hoc') as (r1 & H1 & ->).
    split; [lia|]. intros ?. eapply Hc; [done|done|done|done|lia].
Qed.

Lemma counters_stay_distinct_witness :
  counters_ok (replicate 2 empty_slot) /\
  exists s' st mi' m,
    access_set 2 5 false None (replicate 2 empty_slot) = Some (s', st, mi') /\
    counters_ok s' /\
    s' !! m = Some (5, 1) /\
    forall j t r, j <> m -> s' !! j = Some (t, r) -> t <> -1 -> 2 <= r.
Proof.
  apply (counters_stay_distinct 2 5 false None (replicate 2 empty_slot)).
  - lia.
  - lia.
  - apply fresh_set_ok.
  - intros [|[|i]] [|[|j]] t r t' r' Hi Hj Ht; simpl in Hi, Hj;
      try discriminate Hi; injection Hi as <- <-; lia.
Defined.

(** The two hypotheses of the last theorem are needed: the tag -1 takes a
    slot by eviction and leaves the empty mark before an occupied slot; the
    next fill ages only the slots before it, and tags 5 and 9 end with the
    same counter. *)
Example sentinel_tag_ties_counters :
  access_set 3 (-1) true None [(5, 1); (7, 4); (9, 2)]
    = Some ([(5, 2); (-1, 1); (9, 3)], MISS, Some 1%nat) /\
  access_set 3 11 true (Some 1%nat) [(5, 2); (-1, 1); (9, 3)]
    = Some ([(5, 3); (11, 1); (9, 3)], MISS, Some 1%nat).
Proof. split; reflexivity. Qed.

(** X9.  In a full set without the tag whose counters are positive and
    pairwise distinct, the slot that is replaced is the only one with the
    largest counter: every other slot has a strictly smaller counter, keeps
    its tag and is one older afterwards. *)
Theorem victim_is_unique_maximum assoc tag is_lw mi (s : list slot) :
  length s = assoc -> (0 < assoc)%nat -> counters_ok s ->
  (forall j t r, s !! j = Some (t, r) -> t <> tag /\ t <> -1) ->
  exists k t_k r_k s',
    access_set assoc tag is_lw mi s
      = Some (s', if is_lw then MISS else SW, Some k) /\
    s !! k = Some (t_k, r_k) /\
    s' !! k = Some (tag, 1) /\
    forall j t r, j <> k -> s !! j = Some (t, r) ->
      r < r_k /\ s' !! j = Some (t, r + 1).
Proof.
  intros Hl Hpos Hc Hfull.
  destruct (access_set_evict assoc tag is_lw mi s)
    as (k & t_k & r_k & s' & Ha & Hk & Hmax & _ & _ & _ & Hk' & Ho); try done.
  - intros j t r _ Hj. eauto.
  - intros j t r Hj. destruct (Hfull _ _ _ Hj) as [_ Hoc].
    destruct (Hc _ _ _ _ _ _ Hj Hj Hoc Hoc). lia.
  - exists k, t_k, r_k, s'. split_and!; try done.
    intros j t r Hne Hj. split; [|eauto].
    pose proof (Hmax _ _ _ Hj).
    destruct (Hfull _ _ _ Hj) as [_ Hoc]. destruct (Hfull _ _ _ Hk) as [_ Hock].
    destruct (Hc _ _ _ _ _ _ Hj Hk Hoc Hock) as [_ Heq].
    destruct (decide (r = r_k)) as [->|]; [|lia]. by destruct Hne; apply Heq.
Qed.

Lemma victim_is_unique_maximum_witness :
  exists k t_k r_k s',
    access_set 2 9 true None [(5, 2); (7, 1)] = Some (s', MISS, Some k) /\
    [(5, 2); (7, 1)] !! k = Some (t_k, r_k) /\
    s' !! k = Some (9, 1) /\
    forall j t r, j <> k -> [(5, 2); (7, 1)] !! j = Some (t, r) ->
      r < r_k /\ s' !! j = Some (t, r + 1).
Proof.
  apply (victim_is_unique_maximum 2 9 true None [(5, 2); (7, 1)]).
  - reflexivity.
  - lia.
  - intros [|[|i]] [|[|j]] t r t' r' Hi Hj Ht Ht'; simpl in Hi, Hj;
      try discriminate Hi; try discriminate Hj;
      injection Hi as <- <-; injection Hj as <- <-; lia.
  - intros [|[|j]] t r Hj; simpl in Hj; try discriminate Hj;
      injection Hj as <- <-; lia.
Defined.



(** ** The instructions by the bits of the word *)

Lemma reg_get (regs : list Z) v :
  length regs = 8%nat -> 0 <= v < 8 ->
  Py.get regs v = Some (regs !!! Z.to_nat v).
Proof.
  intros Hl Hv. rewrite py_get_nonneg by lia.
  apply list_lookup_lookup_total_lt. lia.
Qed.

Lemma reg_set (regs : list Z) v x :
  length regs = 8%nat -> 0 <= v < 8 ->
  Py.set regs v x = Some (<[Z.to_nat v := x]> regs).
Proof. intros Hl Hv. apply py_set_nonneg. lia. Qed.

Lemma prefix3_iff w v :
  0 <= w < 2 ^ 16 -> 0 <= v < 8 ->
  Py.slice 0 3 (fetch w) = bits 3 v <-> w / 8192 = v.
Proof.
  intros Hw Hv. rewrite (slice_bits w 0 3) by (done || lia).
  change (2 ^ Z.of_nat (16 - 3)) with 8192. apply bits_eq_iff; [|done].
  change (2 ^ Z.of_nat 3) with 8.
  split; [apply Z.div_pos; lia|apply Z.div_lt_upper_bound; lia].
Qed.

Lemma prefix2_iff w v :
  0 <= w < 2 ^ 16 -> 0 <= v < 4 ->
  Py.slice 0 2 (fetch w) = bits 2 v <-> w / 16384 = v.
Proof.
  intros Hw Hv. rewrite (slice_bits w 0 2) by (done || lia).
  change (2 ^ Z.of_nat (16 - 2)) with 16384. apply bits_eq_iff; [|done].
  change (2 ^ Z.of_nat 2) with 4.
  split; [apply Z.div_pos; lia|apply Z.div_lt_upper_bound; lia].
Qed.

Lemma opcode_iff w v :
  0 <= w < 2 ^ 16 -> 0 <= v < 16 ->
  Py.slice_last 4 (fetch w) = bits 4 v <-> w mod 16 = v.
Proof.
  intros Hw Hv. unfold Py.slice_last.
  replace (String.length (fetch w)) with 16%nat
    by (by rewrite fetch_bits, bits_length).
  rewrite (slice_from_bits w (16 - 4)) by (done || lia).
  rewrite (bits_mod (16 - (16 - 4)) w).
  change (2 ^ Z.of_nat (16 - (16 - 4))) with 16.
  apply bits_eq_iff; [|done]. apply Z.mod_pos_bound. lia.
Qed.

Lemma field3 w (a b : nat) :
  0 <= w < 2 ^ 16 -> (a < b <= 16)%nat -> (b - a = 3)%nat ->
  exists v, Py.int2 (Py.slice a b (fetch w)) = Some v /\
    v = (w / 2 ^ Z.of_nat (16 - b)) mod 8 /\ 0 <= v < 8.
Proof.
  intros Hw Hab H3. rewrite slice_field by done. rewrite H3.
  eexists. split; [done|]. split; [done|]. apply Z.mod_pos_bound. lia.
Qed.

Lemma threereg_eval pc regs w :
  0 <= w < 2 ^ 13 -> length regs = 8%nat ->
  let a := regs !!! Z.to_nat (w / 1024 mod 8) in
  let b := regs !!! Z.to_nat (w / 128 mod 8) in
  let dst := Z.to_nat (w / 16 mod 8) in
  threereg pc regs (fetch w) =
    Some (if decide (w mod 16 = 0) then
            (pc + 1, <[dst := (a + b) mod 2 ^ 16]> regs)
          else if decide (w mod 16 = 1) then
            (pc + 1, <[dst := (a - b) mod 2 ^ 16]> regs)
          else if decide (w mod 16 = 2) then
            (pc + 1, <[dst := Z.land a b]> regs)
          else if decide (w mod 16 = 3) then
            (pc + 1, <[dst := Z.lor a b]> regs)
          else if decide (w mod 16 = 4) then
            (pc + 1, <[dst := if decide (a < b) then 1 else 0]> regs)
          else if decide (w mod 16 = 8) then (a, regs)
          else (pc + 1, regs)).
Proof.
  intros Hw Hregs a b dst. assert (0 <= w < 2 ^ 16) as Hw16 by lia.
  unfold threereg.
  destruct (field3 w 9 12) as (vd & -> & -> & Hd); [done|lia|done|].
  destruct (field3 w 3 6) as (va & -> & -> & Ha); [done|lia|done|].
  destruct (field3 w 6 9) as (vb & -> & -> & Hb); [done|lia|done|].
  change (2 ^ Z.of_nat (16 - 12)) with 16 in *.
  change (2 ^ Z.of_nat (16 - 6)) with 1024 in *.
  change (2 ^ Z.of_nat (16 - 9)) with 128 in *.
  cbn [mbind option_bind]. cbv zeta.
  rewrite !reg_get by done. cbn [mbind option_bind].
  rewrite !reg_set by done. cbn [mbind option_bind].
  pose proof (opcode_iff w 0 Hw16 ltac:(lia)) as H0.
  pose proof (opcode_iff w 1 Hw16 ltac:(lia)) as H1.
  pose proof (opcode_iff w 2 Hw16 ltac:(lia)) as H2.
  pose proof (opcode_iff w 3 Hw16 ltac:(lia)) as H3.
  pose proof (opcode_iff w 4 Hw16 ltac:(lia)) as H4.
  pose proof (opcode_iff w 8 Hw16 ltac:(lia)) as H8.
  change (bits 4 0) with "0000" in H0. change (bits 4 1) with "0001" in H1.
  change (bits 4 2) with "0010" in H2. change (bits 4 3) with "0011" in H3.
  change (bits 4 4) with "0100" in H4. change (bits 4 8) with "1000" in H8.
  repeat case_decide; try done; exfalso; intuition lia.
Qed.

Lemma tworegImm_eval pc regs w :
  0 <= w < 2 ^ 16 -> w / 8192 = 1 \/ w / 8192 = 7 -> length regs = 8%nat ->
  let a := regs !!! Z.to_nat (w / 1024 mod 8) in
  let dst := Z.to_nat (w / 128 mod 8) in
  let imm := (w + 64) mod 128 - 64 in
  tworegImm pc regs (fetch w) =
    Some (pc + 1,
          <[dst := if decide (w / 8192 = 1)
                   then (if decide (a < imm mod 2 ^ 16) then 1 else 0)
                   else (a + imm) mod 2 ^ 16]> regs).
Proof.
  intros Hw Hfam Hregs a dst imm. unfold tworegImm.
  destruct (field3 w 6 9) as (vd & -> & -> & Hd); [done|lia|done|].
  destruct (field3 w 3 6) as (va & -> & -> & Ha); [done|lia|done|].
  change (2 ^ Z.of_nat (16 - 6)) with 1024 in *.
  change (2 ^ Z.of_nat (16 - 9)) with 128 in *.
  rewrite imm7_eval by done. cbn [mbind option_bind].
  rewrite !reg_get by done. cbn [mbind option_bind].
  rewrite !reg_set by done. cbn [mbind option_bind].
  pose proof (prefix3_iff w 1 Hw ltac:(lia)) as H1.
  pose proof (prefix3_iff w 7 Hw ltac:(lia)) as H7.
  change (bits 3 1) with "001" in H1. change (bits 3 7) with "111" in H7.
  repeat case_decide; try done; exfalso; intuition lia.
Qed.

Lemma jeq_eval pc regs w :
  0 <= w < 2 ^ 16 -> length regs = 8%nat ->
  let a := regs !!! Z.to_nat (w / 1024 mod 8) in
  let b := regs !!! Z.to_nat (w / 128 mod 8) in
  let imm := (w + 64) mod 128 - 64 in
  jeq pc regs (fetch w) =
    Some (if decide (a = b) then pc + 1 + imm else pc + 1).
Proof.
  intros Hw Hregs a b imm. unfold jeq.
  destruct (field3 w 3 6) as (va & -> & -> & Ha); [done|lia|done|].
  destruct (field3 w 6 9) as (vb & -> & -> & Hb); [done|lia|done|].
  change (2 ^ Z.of_nat (16 - 6)) with 1024 in *.
  change (2 ^ Z.of_nat (16 - 9)) with 128 in *.
  rewrite imm7_eval by done. cbn [mbind option_bind].
  rewrite !reg_get by done. cbn [mbind option_bind].
  subst a b imm. by case_decide.
Qed.

Lemma memImm_lw_eval pc regs memory w :
  0 <= w < 2 ^ 16 -> w / 8192 = 4 -> length regs = 8%nat ->
  let base := regs !!! Z.to_nat (w / 1024 mod 8) in
  let dst := Z.to_nat (w / 128 mod 8) in
  let imm := (w + 64) mod 128 - 64 in
  memImm pc regs memory (fetch w) =
    match Py.get memory (base + imm) with
    | None => None
    | Some v =>
        Some (pc + 1,
              <[dst := v]> regs !!! Z.to_nat (w / 1024 mod 8) + imm,
              <[dst := v]> regs, memory)
    end.
Proof.
  intros Hw Hfam Hregs base dst imm. unfold memImm.
  destruct (field3 w 3 6) as (va & -> & -> & Ha); [done|lia|done|].
  destruct (field3 w 6 9) as (vb & -> & -> & Hb); [done|lia|done|].
  change (2 ^ Z.of_nat (16 - 6)) with 1024 in *.
  change (2 ^ Z.of_nat (16 - 9)) with 128 in *.
  rewrite imm7_eval by done. cbn [mbind option_bind].
  pose proof (prefix3_iff w 4 Hw ltac:(lia)) as H4.
  change (bits 3 4) with "100" in H4.
  rewrite decide_True by by apply H4. cbn [mbind option_bind].
  rewrite reg_get by done. cbn [mbind option_bind].
  destruct (Py.get memory _) as [v|]; [|done]. cbn [mbind option_bind].
  rewrite reg_set by done. cbn [mbind option_bind fst snd].
  rewrite reg_get by (by rewrite ?length_insert). done.
Qed.

Lemma memImm_sw_eval pc regs memory w :
  0 <= w < 2 ^ 16 -> w / 8192 = 5 -> length regs = 8%nat ->
  let base := regs !!! Z.to_nat (w / 1024 mod 8) in
  let src := regs !!! Z.to_nat (w / 128 mod 8) in
  let imm := (w + 64) mod 128 - 64 in
  memImm pc regs memory (fetch w) =
    match Py.set memory (base + imm) src with
    | None => None
    | Some memory' => Some (pc + 1, base + imm, regs, memory')
    end.
Proof.
  intros Hw Hfam Hregs base src imm. unfold memImm.
  destruct (field3 w 3 6) as (va & -> & -> & Ha); [done|lia|done|].
  destruct (field3 w 6 9) as (vb & -> & -> & Hb); [done|lia|done|].
  change (2 ^ Z.of_nat (16 - 6)) with 1024 in *.
  change (2 ^ Z.of_nat (16 - 9)) with 128 in *.
  rewrite imm7_eval by done. cbn [mbind option_bind].
  pose proof (prefix3_iff w 4 Hw ltac:(lia)) as H4.
  pose proof (prefix3_iff w 5 Hw ltac:(lia)) as H5.
  change (bits 3 4) with "100" in H4. change (bits 3 5) with "101" in H5.
  rewrite decide_False by (intros ?; apply H4 in H; lia).
  rewrite decide_True by by apply H5. cbn [mbind option_bind].
  rewrite !reg_get by done. cbn [mbind option_bind].
  destruct (Py.set memory _ _) as [m'|]; [|done]. cbn [mbind option_bind fst snd].
  rewrite reg_get by done. done.
Qed.

Lemma py_index_cases {A} (l : list A) k :
  let n := Z.of_nat (length l) in
  (- n <= k < n -> Py.index l k = Some (Z.to_nat (k mod n)) /\
                   (Z.to_nat (k mod n) < length l)%nat) /\
  (k < - n \/ n <= k -> Py.index l k = None).
Proof.
  intros n. unfold Py.index. fold n. split.
  - intros Hk. assert (0 < n) by lia.
    destruct (decide (0 <= k < n)) as [Hin|Hout].
    + rewrite Z.mod_small by done. split; [done|lia].
    + rewrite decide_True by lia.
      replace (k mod n) with (n + k); [split; [done|lia]|].
      apply Z.mod_unique with (-1); lia.
  - intros Hk. rewrite !decide_False by lia. done.
Qed.

Lemma step_threereg c σ w :
  Py.get (memory σ) (pc σ) = Some w ->
  Py.slice 0 3 (fetch w) = "000" ->
  step c σ =
    '(pc', regs') ← threereg (pc σ) (regs σ) (fetch w);
    Some (State pc' regs' (memory σ) (L1 σ) (L2 σ) (maxi_index σ)
            (halt σ) (out σ)).
Proof.
  intros Hw H3. unfold step. rewrite Hw. cbn [mbind option_bind].
  by rewrite (decide_True (P := Py.slice 0 3 (fetch w) = "000")).
Qed.

Lemma step_tworegImm c σ w :
  Py.get (memory σ) (pc σ) = Some w ->
  Py.slice 0 3 (fetch w) = "001" \/ Py.slice 0 3 (fetch w) = "111" ->
  step c σ =
    '(pc', regs') ← tworegImm (pc σ) (regs σ) (fetch w);
    Some (State pc' regs' (memory σ) (L1 σ) (L2 σ) (maxi_index σ)
            (halt σ) (out σ)).
Proof.
  intros Hw H3. unfold step. rewrite Hw. cbn [mbind option_bind].
  rewrite (decide_False (P := Py.slice 0 3 (fetch w) = "000"))
    by (intros H0; rewrite H0 in H3; by destruct H3).
  by rewrite (decide_True (P := _ \/ _)).
Qed.

Lemma step_jeq c σ w :
  Py.get (memory σ) (pc σ) = Some w ->
  Py.slice 0 3 (fetch w) = "110" ->
  step c σ =
    pc' ← jeq (pc σ) (regs σ) (fetch w);
    Some (State pc' (regs σ) (memory σ) (L1 σ) (L2 σ) (maxi_index σ)
            (halt σ) (out σ)).
Proof.
  intros Hw H3. unfold step. rewrite Hw. cbn [mbind option_bind].
  pose proof (slice2_of_slice3 _ _ _ _ H3) as H2.
  revert H2 H3. generalize (fetch w). intros instr H2 H3.
  rewrite (decide_False (P := Py.slice 0 3 instr = "000"))
    by (rewrite H3; discriminate).
  rewrite (decide_False (P := _ \/ _))
    by (rewrite H3; intros [?|?]; discriminate).
  rewrite (decide_False (P := Py.slice 0 2 instr = "10"))
    by (rewrite H2; discriminate).
  by rewrite (decide_True (P := Py.slice 0 3 instr = "110")).
Qed.

(** X11.  A word below 2^13 (prefix 000) at the pc, eight registers: the
    step is decided by the low four bits of the word.  0, 1, 2, 3 and 4
    write the sum and the difference modulo 2^16, the bitwise and, the
    bitwise or and the comparison of registers [w/1024 mod 8] and
    [w/128 mod 8] to register [w/16 mod 8] (register 0 is written like any
    other) and go to pc+1; 8 jumps to the value of the first register; any
    other value only goes to pc+1.  Memory, caches and output are
    untouched. *)
Theorem step_three_register c σ w :
  Py.get (memory σ) (pc σ) = Some w -> 0 <= w < 2 ^ 13 ->
  length (regs σ) = 8%nat ->
  let a := regs σ !!! Z.to_nat (w / 1024 mod 8) in
  let b := regs σ !!! Z.to_nat (w / 128 mod 8) in
  let next pc' regs' :=
    State pc' regs' (memory σ) (L1 σ) (L2 σ) (maxi_index σ) (halt σ) (out σ) in
  let write v := next (pc σ + 1) (<[Z.to_nat (w / 16 mod 8) := v]> (regs σ)) in
  step c σ =
    Some (if decide (w mod 16 = 0) then write ((a + b) mod 2 ^ 16)
          else if decide (w mod 16 = 1) then write ((a - b) mod 2 ^ 16)
          else if decide (w mod 16 = 2) then write (Z.land a b)
          else if decide (w mod 16 = 3) then write (Z.lor a b)
          else if decide (w mod 16 = 4) then
            write (if decide (a < b) then 1 else 0)
          else if decide (w mod 16 = 8) then next a (regs σ)
          else next (pc σ + 1) (regs σ)).
Proof.
  intros Hget Hw Hregs a b next write.
  assert (0 <= w < 2 ^ 16) as Hw16 by lia.
  rewrite (step_threereg c σ w Hget).
  2: { apply (prefix3_iff w 0); [done|lia|]. apply Z.div_small. lia. }
  rewrite threereg_eval by done. cbn [mbind option_bind].
  subst a b next write. by repeat case_decide.
Qed.

Lemma step_three_register_witness :
  step demo_cfg (State 0 [0; 7; 9; 0; 0; 0; 0; 0] [1328] [] [] None false [])
    = Some (State 1 [0; 7; 9; 16; 0; 0; 0; 0] [1328] [] [] None false []).
Proof.
  apply (step_three_register demo_cfg
           (State 0 [0; 7; 9; 0; 0; 0; 0; 0] [1328] [] [] None false [])
           1328).
  - reflexivity.
  - lia.
  - reflexivity.
Defined.

(** X12.  A 16-bit word with prefix 001 ([slti]) or 111 ([addi]) at the pc,
    eight registers: register [w/128 mod 8] receives, for 111, the sum of
    register [w/1024 mod 8] and the signed immediate modulo 2^16, and for
    001 the comparison of that register with the immediate taken modulo
    2^16 (an unsigned comparison); the pc advances by one and memory,
    caches and output are untouched. *)
Theorem step_immediate c σ w :
  Py.get (memory σ) (pc σ) = Some w -> 0 <= w < 2 ^ 16 ->
  w / 8192 = 1 \/ w / 8192 = 7 -> length (regs σ) = 8%nat ->
  let a := regs σ !!! Z.to_nat (w / 1024 mod 8) in
  let imm := (w + 64) mod 128 - 64 in
  step c σ =
    Some (State (pc σ + 1)
            (<[Z.to_nat (w / 128 mod 8) :=
                 if decide (w / 8192 = 1)
                 then (if decide (a < imm mod 2 ^ 16) then 1 else 0)
                 else (a + imm) mod 2 ^ 16]> (regs σ))
            (memory σ) (L1 σ) (L2 σ) (maxi_index σ) (halt σ) (out σ)).
Proof.
  intros Hget Hw Hfam Hregs a imm.
  rewrite (step_tworegImm c σ w Hget).
  2: { destruct Hfam as [H|H]; [left; by apply (prefix3_iff w 1)
                               |right; by apply (prefix3_iff w 7)]. }
  by rewrite tworegImm_eval.
Qed.

Lemma step_immediate_witness :
  step demo_cfg (State 0 [0; 7; 0; 0; 0; 0; 0; 0] [58751] [] [] None false [])
    = Some (State 1 [0; 7; 6; 0; 0; 0; 0; 0] [58751] [] [] None false []).
Proof.
  apply (step_immediate demo_cfg
           (State 0 [0; 7; 0; 0; 0; 0; 0; 0] [58751] [] [] None false [])
           58751).
  - reflexivity.
  - lia.
  - right. reflexivity.
  - reflexivity.
Defined.

(** X13.  A 16-bit word with prefix 110 ([jeq]) at the pc, eight
    registers: the next pc is pc+1 plus the signed immediate when registers
    [w/1024 mod 8] and [w/128 mod 8] hold the same value and pc+1
    otherwise, without any reduction modulo the size of memory; nothing
    else changes. *)
Theorem step_jeq_target c σ w :
  Py.get (memory σ) (pc σ) = Some w -> 0 <= w < 2 ^ 16 -> w / 8192 = 6 ->
  length (regs σ) = 8%nat ->
  let a := regs σ !!! Z.to_nat (w / 1024 mod 8) in
  let b := regs σ !!! Z.to_nat (w / 128 mod 8) in
  let imm := (w + 64) mod 128 - 64 in
  -64 <= imm <= 63 /\
  step c σ =
    Some (State (if decide (a = b) then pc σ + 1 + imm else pc σ + 1)
            (regs σ) (memory σ) (L1 σ) (L2 σ) (maxi_index σ) (halt σ)
            (out σ)).
Proof.
  intros Hget Hw Hfam Hregs a b imm. split; [apply imm7_bounds|].
  rewrite (step_jeq c σ w Hget) by by apply (prefix3_iff w 6).
  by rewrite jeq_eval.
Qed.

Lemma step_jeq_target_witness :
  -64 <= (49539 + 64) mod 128 - 64 <= 63 /\
  step demo_cfg (State 0 [0; 0; 5; 0; 0; 0; 0; 0] [49539] [] [] None false [])
    = Some (State (if decide ([0; 0; 5; 0; 0; 0; 0; 0]
                                !!! Z.to_nat (49539 / 1024 mod 8)
                              = [0; 0; 5; 0; 0; 0; 0; 0]
                                !!! Z.to_nat (49539 / 128 mod 8))
                   then 0 + 1 + ((49539 + 64) mod 128 - 64) else 0 + 1)
              [0; 0; 5; 0; 0; 0; 0; 0] [49539] [] [] None false []).
Proof.
  apply (step_jeq_target demo_cfg
           (State 0 [0; 0; 5; 0; 0; 0; 0; 0] [49539] [] [] None false [])
           49539).
  - reflexivity.
  - lia.
  - reflexivity.
  - reflexivity.
Defined.

(** X14.  [lw] (prefix 100) reads [memory[regs[base] + imm]] with Python's
    indexing: an address outside [-len(memory), len(memory)) raises and an
    address inside, negative ones included, reads the word at the address
    modulo the length of memory into register [w/128 mod 8]; memory is
    unchanged. *)
Theorem lw_reads_wrapped_address pc regs memory w :
  0 <= w < 2 ^ 16 -> w / 8192 = 4 -> length regs = 8%nat ->
  let n := Z.of_nat (length memory) in
  let ea := regs !!! Z.to_nat (w / 1024 mod 8) + ((w + 64) mod 128 - 64) in
  (ea < - n \/ n <= ea -> memImm pc regs memory (fetch w) = None) /\
  (- n <= ea < n ->
   exists v addr,
     memory !! Z.to_nat (ea mod n) = Some v /\
     memImm pc regs memory (fetch w)
       = Some (pc + 1, addr, <[Z.to_nat (w / 128 mod 8) := v]> regs, memory)).
Proof.
  intros Hw Hfam Hregs n ea. rewrite memImm_lw_eval by done. fold ea.
  destruct (py_index_cases memory ea) as [Hin Hout]. fold n in Hin, Hout.
  unfold Py.get. split.
  - intros Hea. by rewrite (Hout Hea).
  - intros Hea. destruct (Hin Hea) as [-> Hlt]. cbn [mbind option_bind].
    destruct (lookup_lt_is_Some_2 memory _ Hlt) as [v Hv]. rewrite Hv. eauto.
Qed.

Lemma lw_reads_wrapped_address_witness :
  let n := Z.of_nat (length [33023; 11; 22]) in
  let ea := replicate 8 0 !!! Z.to_nat (33023 / 1024 mod 8)
            + ((33023 + 64) mod 128 - 64) in
  (ea < - n \/ n <= ea ->
   memImm 0 (replicate 8 0) [33023; 11; 22] (fetch 33023) = None) /\
  (- n <= ea < n ->
   exists v addr,
     [33023; 11; 22] !! Z.to_nat (ea mod n) = Some v /\
     memImm 0 (replicate 8 0) [33023; 11; 22] (fetch 33023)
       = Some (0 + 1, addr, <[Z.to_nat (33023 / 128 mod 8) := v]>
                              (replicate 8 0), [33023; 11; 22])).
Proof.
  apply (lw_reads_wrapped_address 0 (replicate 8 0) [33023; 11; 22] 33023).
  - lia.
  - reflexivity.
  - reflexivity.
Defined.

(** X15.  The address that [memImm] returns for a [lw], the one the caches
    see, is computed after the destination register is written: when the
    destination is also the base register it is the loaded value plus the
    immediate, and only otherwise the address that was read. *)
Theorem lw_reports_address_after_load pc regs memory w pc' addr regs' memory' :
  0 <= w < 2 ^ 16 -> w / 8192 = 4 -> length regs = 8%nat ->
  memImm pc regs memory (fetch w) = Some (pc', addr, regs', memory') ->
  let imm := (w + 64) mod 128 - 64 in
  let ea := regs !!! Z.to_nat (w / 1024 mod 8) + imm in
  exists v,
    Py.get memory ea = Some v /\
    (w / 1024 mod 8 = w / 128 mod 8 -> addr = v + imm) /\
    (w / 1024 mod 8 <> w / 128 mod 8 -> addr = ea).
Proof.
  intros Hw Hfam Hregs Hm imm ea. rewrite memImm_lw_eval in Hm by done.
  fold imm in Hm. fold ea in Hm.
  destruct (Py.get memory ea) as [v|]; [|done]. injection Hm as <- <- <- <-.
  assert (forall x, 0 <= x mod 8 < 8) as Hidx
    by (intros x; apply Z.mod_pos_bound; lia).
  exists v. split_and!; [done| |].
  - intros ->. rewrite list_lookup_total_insert_eq; [done|].
    rewrite Hregs. pose proof (Hidx (w / 128)). lia.
  - intros Hne. rewrite list_lookup_total_insert_ne; [done|].
    pose proof (Hidx (w / 128)). pose proof (Hidx (w / 1024)). lia.
Qed.

Lemma lw_reports_address_after_load_witness :
  exists v,
    Py.get [33920; 40; 0] ([0; 1; 0; 0; 0; 0; 0; 0]
                             !!! Z.to_nat (33920 / 1024 mod 8)
                           + ((33920 + 64) mod 128 - 64)) = Some v /\
    (33920 / 1024 mod 8 = 33920 / 128 mod 8 ->
     40 = v + ((33920 + 64) mod 128 - 64)) /\
    (33920 / 1024 mod 8 <> 33920 / 128 mod 8 ->
     40 = [0; 1; 0; 0; 0; 0; 0; 0] !!! Z.to_nat (33920 / 1024 mod 8)
          + ((33920 + 64) mod 128 - 64)).
Proof.
  apply (lw_reports_address_after_load 0 [0; 1; 0; 0; 0; 0; 0; 0]
           [33920; 40; 0] 33920 1 40 [0; 40; 0; 0; 0; 0; 0; 0]
           [33920; 40; 0]).
  - lia.
  - reflexivity.
  - reflexivity.
  - reflexivity.
Defined.

(** X16.  [sw] (prefix 101) writes register [w/128 mod 8] to
    [memory[regs[base] + imm]] with Python's indexing: an address outside
    [-len(memory), len(memory)) raises; an address inside changes the one
    word at the address modulo the length of memory, leaves the registers
    alone and returns the address as it was computed. *)
Theorem sw_writes_one_word pc regs memory w :
  0 <= w < 2 ^ 16 -> w / 8192 = 5 -> length regs = 8%nat ->
  let n := Z.of_nat (length memory) in
  let ea := regs !!! Z.to_nat (w / 1024 mod 8) + ((w + 64) mod 128 - 64) in
  (ea < - n \/ n <= ea -> memImm pc regs memory (fetch w) = None) /\
  (- n <= ea < n ->
   memImm pc regs memory (fetch w)
     = Some (pc + 1, ea, regs,
             <[Z.to_nat (ea mod n) := regs !!! Z.to_nat (w / 128 mod 8)]>
               memory)).
Proof.
  intros Hw Hfam Hregs n ea. rewrite memImm_sw_eval by done. fold ea.
  destruct (py_index_cases memory ea) as [Hin Hout]. fold n in Hin, Hout.
  unfold Py.set. split.
  - intros Hea. by rewrite (Hout Hea).
  - intros Hea. destruct (Hin Hea) as [-> Hlt]. done.
Qed.

Lemma sw_writes_one_word_witness :
  let n := Z.of_nat (length [41215; 11; 22]) in
  let ea := [0; 9; 0; 0; 0; 0; 0; 0] !!! Z.to_nat (41215 / 1024 mod 8)
            + ((41215 + 64) mod 128 - 64) in
  (ea < - n \/ n <= ea ->
   memImm 0 [0; 9; 0; 0; 0; 0; 0; 0] [41215; 11; 22] (fetch 41215) = None) /\
  (- n <= ea < n ->
   memImm 0 [0; 9; 0; 0; 0; 0; 0; 0] [41215; 11; 22] (fetch 41215)
     = Some (0 + 1, ea, [0; 9; 0; 0; 0; 0; 0; 0],
             <[Z.to_nat (ea mod n) :=
                 [0; 9; 0; 0; 0; 0; 0; 0] !!! Z.to_nat (41215 / 128 mod 8)]>
               [41215; 11; 22])).
Proof.
  apply (sw_writes_one_word 0 [0; 9; 0; 0; 0; 0; 0; 0] [41215; 11; 22] 41215).
  - lia.
  - reflexivity.
  - reflexivity.
Defined.

(** ** The loop *)

Lemma j_or_jal_result pc regs instr imm h regs' :
  j_or_jal pc regs instr = Some (imm, h, regs') ->
  Py.int2 (Py.slice_from 3 instr) = Some imm /\ (h = true <-> pc = imm).
Proof.
  unfold j_or_jal.
  destruct (if decide _ then _ else _) as [regs0|]; [|done].
  cbn [mbind option_bind].
  destruct (Py.int2 _) as [imm0|]; [|done]. cbn [mbind option_bind].
  case_decide; intros [= <- <- <-]; split; try done; naive_solver.
Qed.

Ltac step_cases :=
  repeat match goal with
  | |- context [decide ?P] => destruct (decide P)
  end.

Lemma run_stuck c σ :
  step c σ = Some σ -> halt σ = false ->
  forall fuel, run fuel c σ = OutOfFuel σ.
Proof.
  intros Hstep Hhalt fuel. induction fuel as [|fuel IH]; simpl.
  - by rewrite Hhalt.
  - by rewrite Hhalt, Hstep.
Qed.

Lemma halting_step c σ σ' :
  halt σ = false -> step c σ = Some σ' -> halt σ' = true ->
  pc σ' = pc σ /\ memory σ' = memory σ /\
  exists w,
    Py.get (memory σ) (pc σ) = Some w /\
    Py.slice 0 2 (fetch w) = "01" /\
    Py.int2 (Py.slice_from 3 (fetch w)) = Some (pc σ).
Proof.
  intros Hrun. unfold step.
  destruct (Py.get (memory σ) (pc σ)) as [w|]; [|done].
  cbn [mbind option_bind]. step_cases.
  - destruct (threereg _ _ _) as [[pc' regs']|]; [|done].
    cbn [mbind option_bind]. intros [= <-]. simpl. congruence.
  - destruct (tworegImm _ _ _) as [[pc' regs']|]; [|done].
    cbn [mbind option_bind]. intros [= <-]. simpl. congruence.
  - destruct (memImm _ _ _ _) as [[[[pc' mem_val] regs'] memory']|]; [|done].
    destruct (String.get 2 (fetch w)) as [bit2|]; [|done].
    cbn [mbind option_bind]. cbv zeta.
    destruct (cache_access _ _ _ _ _ _ (L1 σ)) as [[[[l1 st1] line1] mi1]|];
      [|done].
    destruct (_ && _).
    + destruct (cache_access _ _ _ _ _ _ (L2 σ)) as [[[[l2 st2] line2] mi2]|];
        [|done].
      intros [= <-]. simpl. congruence.
    + intros [= <-]. simpl. congruence.
  - destruct (jeq _ _ _) as [pc'|]; [|done].
    cbn [mbind option_bind]. intros [= <-]. simpl. congruence.
  - destruct (j_or_jal _ _ _) as [[[imm h] regs']|] eqn:Hj; [|done].
    apply j_or_jal_result in Hj as [Himm Hh]. destruct h.
    + intros [= <-] _. simpl. split_and!; try done.
      exists w. split_and!; try done.
      destruct Hh as [Hh _]. by rewrite (Hh eq_refl).
    + intros [= <-]. simpl. congruence.
  - intros [= <-]. congruence.
Qed.

(** X17.  With one cache, no step touches L2 and a step prints at most one
    line, an L1 line with the pc of the instruction. *)
Theorem single_cache_never_touches_l2 c σ σ' :
  twocache c = false -> step c σ = Some σ' ->
  L2 σ' = L2 σ /\
  (out σ' = out σ \/
   exists st addr line, out σ' = out σ ++ [Access "L1" st (pc σ) addr line]).
Proof.
  intros Hone. unfold step.
  destruct (Py.get (memory σ) (pc σ)) as [w|]; [|done].
  cbn [mbind option_bind]. step_cases.
  - destruct (threereg _ _ _) as [[pc' regs']|]; [|done].
    cbn [mbind option_bind]. intros [= <-]. auto.
  - destruct (tworegImm _ _ _) as [[pc' regs']|]; [|done].
    cbn [mbind option_bind]. intros [= <-]. auto.
  - destruct (memImm _ _ _ _) as [[[[pc' mem_val] regs'] memory']|]; [|done].
    destruct (String.get 2 (fetch w)) as [bit2|]; [|done].
    cbn [mbind option_bind]. cbv zeta.
    destruct (cache_access _ _ _ _ _ _ (L1 σ)) as [[[[l1 st1] line1] mi1]|];
      [|done].
    rewrite Hone. cbn [andb]. intros [= <-]. simpl.
    split; [done|]. right. by eexists _, _, _.
  - destruct (jeq _ _ _) as [pc'|]; [|done].
    cbn [mbind option_bind]. intros [= <-]. auto.
  - destruct (j_or_jal _ _ _) as [[[imm h] regs']|]; [|done].
    destruct h; intros [= <-]; auto.
  - intros [= <-]. auto.
Qed.

Lemma single_cache_never_touches_l2_witness :
  L2 (State 1 [0; 32896; 0; 0; 0; 0; 0; 0] demo_image [[(0, 1); (-1, -1)]]
        [] None false [Access "L1" MISS 0 0 0]) = [] /\
  (out (State 1 [0; 32896; 0; 0; 0; 0; 0; 0] demo_image [[(0, 1); (-1, -1)]]
          [] None false [Access "L1" MISS 0 0 0]) = [] \/
   exists st addr line,
     out (State 1 [0; 32896; 0; 0; 0; 0; 0; 0] demo_image
            [[(0, 1); (-1, -1)]] [] None false [Access "L1" MISS 0 0 0])
       = [] ++ [Access "L1" st 0 addr line]).
Proof.
  apply (single_cache_never_touches_l2 (Cfg 2 2 1 1 false 0 0 0 0)
           (State 0 (replicate 8 0) demo_image (make_cache 1 2) [] None
              false [])).
  - reflexivity.
  - reflexivity.
Defined.

(** X18.  A size smaller than associativity times block size is accepted
    and echoed with 0 lines; the cache is then empty and the first [lw] or
    [sw] that is reached raises (the line is a remainder modulo 0). *)
Theorem zero_lines_configuration s a b image :
  0 <= s < a * b ->
  start (Some [Some s; Some a; Some b]) image =
    Some (Cfg s a b 0 false 0 0 0 0,
          State 0 (replicate 8 0) image [] [] None false
            [Config "L1" s a b 0]) /\
  forall σ w,
    Py.get (memory σ) (pc σ) = Some w -> Py.slice 0 2 (fetch w) = "10" ->
    step (Cfg s a b 0 false 0 0 0 0) σ = None.
Proof.
  intros Hs. split.
  - unfold start, configure, Py.floordiv. cbn -[decide Z.div Z.mul].
    rewrite decide_True by done. cbn -[decide Z.div Z.mul].
    rewrite (decide_False (P := a * b = 0)) by lia. cbn -[decide Z.div Z.mul].
    by rewrite Z.div_small.
  - intros σ w Hget H10. rewrite (step_mem _ σ w Hget H10).
    destruct (memImm _ _ _ _) as [[[[pc' mem_val] regs'] memory']|]; [|done].
    destruct (String.get 2 (fetch w)) as [bit2|]; [|done].
    cbn [mbind option_bind]. cbv zeta.
    unfold cache_access, Py.floordiv, Py.modulo. cbn [L1blocksize numlines_1].
    destruct (decide (b = 0)); [done|]. cbn [mbind option_bind].
    by rewrite decide_True.
Qed.

Lemma zero_lines_configuration_witness :
  start (Some [Some 1; Some 2; Some 1]) demo_image =
    Some (Cfg 1 2 1 0 false 0 0 0 0,
          State 0 (replicate 8 0) demo_image [] [] None false
            [Config "L1" 1 2 1 0]) /\
  forall σ w,
    Py.get (memory σ) (pc σ) = Some w -> Py.slice 0 2 (fetch w) = "10" ->
    step (Cfg 1 2 1 0 false 0 0 0 0) σ = None.
Proof. apply (zero_lines_configuration 1 2 1 demo_image). lia. Defined.

(** X19.  A step on a word whose prefix is not 10 leaves memory, both
    caches, the remembered eviction index and the output as they are. *)
Theorem non_memory_step_frame c σ σ' w :
  Py.get (memory σ) (pc σ) = Some w ->
  Py.slice 0 2 (fetch w) <> "10" ->
  step c σ = Some σ' ->
  memory σ' = memory σ /\ L1 σ' = L1 σ /\ L2 σ' = L2 σ /\
  maxi_index σ' = maxi_index σ /\ out σ' = out σ.
Proof.
  intros Hget Hne. unfold step. rewrite Hget.
  cbn [mbind option_bind]. step_cases; try done.
  - destruct (threereg _ _ _) as [[pc' regs']|]; [|done].
    cbn [mbind option_bind]. by intros [= <-].
  - destruct (tworegImm _ _ _) as [[pc' regs']|]; [|done].
    cbn [mbind option_bind]. by intros [= <-].
  - destruct (jeq _ _ _) as [pc'|]; [|done].
    cbn [mbind option_bind]. by intros [= <-].
  - destruct (j_or_jal _ _ _) as [[[imm h] regs']|]; [|done].
    destruct h; by intros [= <-].
  - by intros [= <-].
Qed.

Lemma non_memory_step_frame_witness :
  memory (State 1 (replicate 8 0) demo_image (make_cache 1 2)
            (make_cache 2 2) None true []) = demo_image /\
  L1 (State 1 (replicate 8 0) demo_image (make_cache 1 2)
        (make_cache 2 2) None true []) = make_cache 1 2 /\
  L2 (State 1 (replicate 8 0) demo_image (make_cache 1 2)
        (make_cache 2 2) None true []) = make_cache 2 2 /\
  maxi_index (State 1 (replicate 8 0) demo_image (make_cache 1 2)
                (make_cache 2 2) None true []) = None /\
  out (State 1 (replicate 8 0) demo_image (make_cache 1 2)
         (make_cache 2 2) None true []) = [].
Proof.
  apply (non_memory_step_frame demo_cfg
           (State 1 (replicate 8 0) demo_image (make_cache 1 2)
              (make_cache 2 2) None false []) _ 16385).
  - reflexivity.
  - discriminate.
  - reflexivity.
Defined.

(** X20.  The loop ends only on a jump to itself: when a run from a state
    in which [halt] is not set returns, [halt] is set and the word at the
    final pc has prefix 01 and the final pc as its 13-bit target. *)
Theorem halted_run_rests_on_self_jump c fuel : forall σ σ',
  halt σ = false -> run fuel c σ = Halted σ' ->
  halt σ' = true /\
  exists w,
    Py.get (memory σ') (pc σ') = Some w /\
    Py.slice 0 2 (fetch w) = "01" /\
    Py.int2 (Py.slice_from 3 (fetch w)) = Some (pc σ').
Proof.
  induction fuel as [|fuel IH]; intros σ σ' Hrun; simpl; rewrite Hrun; [done|].
  destruct (step c σ) as [σ1|] eqn:Hstep; [|done].
  destruct (halt σ1) eqn:Hh1.
  - destruct fuel; simpl; rewrite Hh1; intros [= <-];
      destruct (halting_step c σ σ1 Hrun Hstep Hh1)
        as (Hpc & Hmem & w & Hget & H01 & Himm);
      (split; [done|]); exists w; rewrite Hpc, Hmem; done.
  - by apply IH.
Qed.

Lemma halted_run_rests_on_self_jump_witness :
  halt (State 1 [0; 32896; 0; 0; 0; 0; 0; 0] demo_image
          [[(0, 1); (-1, -1)]]
          [[(0, 1); (-1, -1)]; [(-1, -1); (-1, -1)]] None true
          (echo demo_cfg ++
           [Access "L1" MISS 0 0 0; Access "L2" MISS 0 0 0])) = true /\
  exists w,
    Py.get demo_image 1 = Some w /\
    Py.slice 0 2 (fetch w) = "01" /\
    Py.int2 (Py.slice_from 3 (fetch w)) = Some 1.
Proof.
  apply (halted_run_rests_on_self_jump demo_cfg 5 demo_state
           (State 1 [0; 32896; 0; 0; 0; 0; 0; 0] demo_image
              [[(0, 1); (-1, -1)]]
              [[(0, 1); (-1, -1)]; [(-1, -1); (-1, -1)]] None true
              (echo demo_cfg ++
               [Access "L1" MISS 0 0 0; Access "L2" MISS 0 0 0]))).
  - reflexivity.
  - reflexivity.
Defined.

(** X21.  A [jeq] of two registers with equal values and immediate -1
    (low seven bits 127) jumps to itself without setting [halt]: the step
    returns the state it started from and the loop never ends, whatever
    the fuel. *)
Theorem jeq_self_loop_never_halts c σ w fuel :
  halt σ = false -> length (regs σ) = 8%nat ->
  Py.get (memory σ) (pc σ) = Some w ->
  0 <= w < 2 ^ 16 -> w / 8192 = 6 -> w mod 128 = 127 ->
  regs σ !!! Z.to_nat (w / 1024 mod 8) = regs σ !!! Z.to_nat (w / 128 mod 8) ->
  step c σ = Some σ /\ run fuel c σ = OutOfFuel σ.
Proof.
  intros Hhalt Hregs Hget Hw Hfam Himm Heq.
  assert (step c σ = Some σ) as Hstep.
  { rewrite (step_jeq c σ w Hget) by by apply (prefix3_iff w 6).
    rewrite jeq_eval by done. cbn [mbind option_bind].
    rewrite decide_True by done.
    assert ((w + 64) mod 128 - 64 = -1) as ->.
    { rewrite <- Zplus_mod_idemp_l, Himm. done. }
    replace (pc σ + 1 + -1) with (pc σ) by lia. by destruct σ. }
  split; [done|]. by apply run_stuck.
Qed.

Lemma jeq_self_loop_never_halts_witness :
  step demo_cfg (State 0 (replicate 8 0) [49279] [] [] None false [])
    = Some (State 0 (replicate 8 0) [49279] [] [] None false []) /\
  run 1000 demo_cfg (State 0 (replicate 8 0) [49279] [] [] None false [])
    = OutOfFuel (State 0 (replicate 8 0) [49279] [] [] None false []).
Proof.
  apply (jeq_self_loop_never_halts demo_cfg
           (State 0 (replicate 8 0) [49279] [] [] None false []) 49279 1000).
  - reflexivity.
  - reflexivity.
  - reflexivity.
  - lia.
  - reflexivity.
  - reflexivity.
  - reflexivity.
Defined.

(** X22.  The pc is not reduced modulo the size of memory: a pc outside
    [-len(memory), len(memory)) makes the fetch raise, and so does the
    loop. *)
Theorem fetch_outside_memory_raises c σ fuel :
  halt σ = false ->
  pc σ < - Z.of_nat (length (memory σ)) \/
    Z.of_nat (length (memory σ)) <= pc σ ->
  step c σ = None /\ run (S fuel) c σ = Raised.
Proof.
  intros Hhalt Hpc.
  assert (step c σ = None) as Hstep.
  { unfold step, Py.get.
    destruct (py_index_cases (memory σ) (pc σ)) as [_ Hout].
    by rewrite (Hout Hpc). }
  split; [done|]. simpl. by rewrite Hhalt, Hstep.
Qed.

Lemma fetch_outside_memory_raises_witness :
  step demo_cfg (State 2 (replicate 8 0) demo_image [] [] None false [])
    = None /\
  run 3 demo_cfg (State 2 (replicate 8 0) demo_image [] [] None false [])
    = Raised.
Proof.
  apply (fetch_outside_memory_raises demo_cfg
           (State 2 (replicate 8 0) demo_image [] [] None false []) 2).
  - reflexivity.
  - right. simpl. lia.
Defined.

Lemma py_set_length {A} (l l' : list A) k x :
  Py.set l k x = Some l' -> length l' = length l.
Proof.
  unfold Py.set. destruct (Py.index l k); [|done]. cbn [mbind option_bind].
  intros [= <-]. apply length_insert.
Qed.

Lemma threereg_length pc regs instr pc' regs' :
  threereg pc regs instr = Some (pc', regs') -> length regs' = length regs.
Proof.
  unfold threereg. intros H.
  repeat (simplify_option_eq || case_decide);
    by (done || (erewrite py_set_length; [done|done])).
Qed.

Lemma tworegImm_length pc regs instr pc' regs' :
  tworegImm pc regs instr = Some (pc', regs') -> length regs' = length regs.
Proof.
  unfold tworegImm. intros H.
  repeat (simplify_option_eq || case_decide);
    by (done || (erewrite py_set_length; [done|done])).
Qed.

Lemma memImm_length pc regs memory instr pc' addr regs' memory' :
  memImm pc regs memory instr = Some (pc', addr, regs', memory') ->
  length regs' = length regs /\ length memory' = length memory.
Proof.
  unfold memImm. intros H.
  repeat (simplify_option_eq || case_decide); split;
    by (done || (erewrite py_set_length; [done|done])).
Qed.

Lemma j_or_jal_length pc regs instr imm h regs' :
  j_or_jal pc regs instr = Some (imm, h, regs') -> length regs' = length regs.
Proof.
  unfold j_or_jal. intros H.
  repeat (simplify_option_eq || case_decide);
    by (done || (erewrite py_set_length; [done|done])).
Qed.

(** X23.  No step resizes anything: the register file, memory and both
    caches have after a step the lengths they had before it. *)
Theorem step_keeps_shape c σ σ' :
  step c σ = Some σ' ->
  length (regs σ') = length (regs σ) /\
  length (memory σ') = length (memory σ) /\
  length (L1 σ') = length (L1 σ) /\ length (L2 σ') = length (L2 σ).
Proof.
  unfold step.
  destruct (Py.get (memory σ) (pc σ)) as [w|]; [|done].
  cbn [mbind option_bind]. step_cases.
  - destruct (threereg _ _ _) as [[pc' regs']|] eqn:H; [|done].
    cbn [mbind option_bind]. intros [= <-]. simpl.
    by rewrite (threereg_length _ _ _ _ _ H).
  - destruct (tworegImm _ _ _) as [[pc' regs']|] eqn:H; [|done].
    cbn [mbind option_bind]. intros [= <-]. simpl.
    by rewrite (tworegImm_length _ _ _ _ _ H).
  - destruct (memImm _ _ _ _) as [[[[pc' mem_val] regs'] memory']|] eqn:H;
      [|done].
    apply memImm_length in H as [Hr Hm].
    destruct (String.get 2 (fetch w)) as [bit2|]; [|done].
    cbn [mbind option_bind]. cbv zeta.
    destruct (cache_access _ _ _ _ _ _ (L1 σ)) as [[[[l1 st1] line1] mi1]|]
      eqn:H1; [|done].
    apply cache_access_length in H1.
    destruct (_ && _).
    + destruct (cache_access _ _ _ _ _ _ (L2 σ)) as [[[[l2 st2] line2] mi2]|]
        eqn:H2; [|done].
      apply cache_access_length in H2.
      by intros [= <-].
    + by intros [= <-].
  - destruct (jeq _ _ _) as [pc'|]; [|done].
    cbn [mbind option_bind]. by intros [= <-].
  - destruct (j_or_jal _ _ _) as [[[imm h] regs']|] eqn:H; [|done].
    apply j_or_jal_length in H. destruct h; by intros [= <-].
  - by intros [= <-].
Qed.

Lemma step_keeps_shape_witness :
  length (regs (State 1 [0; 32896; 0; 0; 0; 0; 0; 0] demo_image
                  [[(0, 1); (-1, -1)]]
                  [[(0, 1); (-1, -1)]; [(-1, -1); (-1, -1)]] None false
                  (echo demo_cfg ++
                   [Access "L1" MISS 0 0 0; Access "L2" MISS 0 0 0])))
    = length (regs demo_state) /\
  length (memory (State 1 [0; 32896; 0; 0; 0; 0; 0; 0] demo_image
                    [[(0, 1); (-1, -1)]]
                    [[(0, 1); (-1, -1)]; [(-1, -1); (-1, -1)]] None false
                    (echo demo_cfg ++
                     [Access "L1" MISS 0 0 0; Access "L2" MISS 0 0 0])))
    = length (memory demo_state) /\
  length (L1 (State 1 [0; 32896; 0; 0; 0; 0; 0; 0] demo_image
                [[(0, 1); (-1, -1)]]
                [[(0, 1); (-1, -1)]; [(-1, -1); (-1, -1)]] None false
                (echo demo_cfg ++
                 [Access "L1" MISS 0 0 0; Access "L2" MISS 0 0 0])))
    = length (L1 demo_state) /\
  length (L2 (State 1 [0; 32896; 0; 0; 0; 0; 0; 0] demo_image
                [[(0, 1); (-1, -1)]]
                [[(0, 1); (-1, -1)]; [(-1, -1); (-1, -1)]] None false
                (echo demo_cfg ++
                 [Access "L1" MISS 0 0 0; Access "L2" MISS 0 0 0])))
    = length (L2 demo_state).
Proof.
  apply (step_keeps_shape demo_cfg demo_state). reflexivity.
Defined.

(** ** Values of 16 bits *)

Lemma land_range a b :
  0 <= a < 2 ^ 16 -> 0 <= b < 2 ^ 16 -> 0 <= Z.land a b < 2 ^ 16.
Proof.
  intros Ha Hb. assert (0 <= Z.land a b) by (apply Z.land_nonneg; lia).
  split; [done|]. destruct (decide (Z.land a b = 0)) as [->|Hne]; [lia|].
  destruct (decide (a = 0)) as [->|Ha0]; [by rewrite Z.land_0_l in Hne|].
  apply Z.log2_lt_pow2; [lia|].
  pose proof (Z.log2_land a b ltac:(lia) ltac:(lia)).
  assert (Z.log2 a < 16) by (apply Z.log2_lt_pow2; lia). lia.
Qed.

Lemma lor_range a b :
  0 <= a < 2 ^ 16 -> 0 <= b < 2 ^ 16 -> 0 <= Z.lor a b < 2 ^ 16.
Proof.
  intros Ha Hb. assert (0 <= Z.lor a b) by (apply Z.lor_nonneg; lia).
  split; [done|]. destruct (decide (a = 0)) as [->|Ha0]; [rewrite Z.lor_0_l; lia|].
  destruct (decide (b = 0)) as [->|Hb0]; [rewrite Z.lor_0_r; lia|].
  apply Z.log2_lt_pow2.
  { destruct (decide (Z.lor a b = 0)) as [Hz|]; [|lia].
    apply Z.lor_eq_0_iff in Hz. lia. }
  rewrite Z.log2_lor by lia.
  assert (Z.log2 a < 16) by (apply Z.log2_lt_pow2; lia).
  assert (Z.log2 b < 16) by (apply Z.log2_lt_pow2; lia). lia.
Qed.

Lemma regs_ok_lookup regs i :
  regs_ok regs -> (i < 8)%nat -> 0 <= regs !!! i < 2 ^ 16.
Proof.
  intros [Hl HF] Hi. unfold words_ok in HF. rewrite Forall_lookup in HF.
  apply (HF i). apply list_lookup_lookup_total_lt. lia.
Qed.

Lemma regs_ok_field regs x :
  regs_ok regs -> 0 <= regs !!! Z.to_nat (x mod 8) < 2 ^ 16.
Proof.
  intros Hok. apply regs_ok_lookup; [done|].
  pose proof (Z.mod_pos_bound x 8). lia.
Qed.

Lemma regs_ok_insert regs i v :
  regs_ok regs -> 0 <= v < 2 ^ 16 -> regs_ok (<[i := v]> regs).
Proof.
  intros [Hl HF] Hv. split; [by rewrite length_insert|].
  by apply Forall_insert.
Qed.

Lemma py_get_word (l : list Z) k v :
  words_ok l -> Py.get l k = Some v ->
  0 <= v < 2 ^ 16 /\ k < Z.of_nat (length l).
Proof.
  intros Hl. unfold Py.get.
  destruct (py_index_cases l k) as [_ Hout].
  destruct (Py.index l k) as [i|] eqn:Hi; [|done]. cbn [mbind option_bind].
  intros Hv. split.
  - unfold words_ok in Hl. rewrite Forall_lookup in Hl. by apply (Hl i).
  - destruct (decide (k < Z.of_nat (length l))); [done|].
    assert (Some i = None) by (apply Hout; lia). done.
Qed.

Lemma py_set_word (l l' : list Z) k v :
  words_ok l -> 0 <= v < 2 ^ 16 -> Py.set l k v = Some l' -> words_ok l'.
Proof.
  intros Hl Hv. unfold Py.set.
  destruct (Py.index l k) as [i|]; [|done]. cbn [mbind option_bind].
  intros [= <-]. by apply Forall_insert.
Qed.

Lemma threereg_regs_ok pc regs w :
  0 <= w < 2 ^ 13 -> regs_ok regs ->
  exists pc' regs',
    threereg pc regs (fetch w) = Some (pc', regs') /\ regs_ok regs'.
Proof.
  intros Hw Hok. pose proof Hok as [Hl _].
  rewrite threereg_eval by done.
  pose proof (regs_ok_field regs (w / 1024) Hok) as Ha.
  pose proof (regs_ok_field regs (w / 128) Hok) as Hb.
  set (a := regs !!! Z.to_nat (w / 1024 mod 8)) in *.
  set (b := regs !!! Z.to_nat (w / 128 mod 8)) in *.
  repeat case_decide; eexists _, _; (split; [done|]); try done;
    apply regs_ok_insert; try done;
    try (apply Z.mod_pos_bound; lia); try lia.
  - by apply land_range.
  - by apply lor_range.
Qed.

(** X24.  Registers and memory stay within 16 bits: from a state with eight
    registers and a memory of at most 2^15 words, all below 2^16, and a
    non-negative pc, a step that returns leaves eight registers and a
    memory of words below 2^16. *)
Theorem step_keeps_words c σ σ' :
  regs_ok (regs σ) -> words_ok (memory σ) ->
  Z.of_nat (length (memory σ)) <= 2 ^ 15 -> 0 <= pc σ ->
  step c σ = Some σ' ->
  regs_ok (regs σ') /\ words_ok (memory σ').
Proof.
  intros Hregs Hmem Hsize Hpc. pose proof Hregs as [Hl8 _].
  destruct (Py.get (memory σ) (pc σ)) as [w|] eqn:Hget;
    [|unfold step; by rewrite Hget].
  destruct (py_get_word _ _ _ Hmem Hget) as [Hw Hlt].
  assert (w / 8192 = 0 \/ w / 8192 = 1 \/ w / 8192 = 7 \/ w / 8192 = 4 \/
          w / 8192 = 5 \/ w / 8192 = 6 \/ w / 8192 = 2 \/ w / 8192 = 3)
    as Hfam.
  { assert (0 <= w / 8192 < 8)
      by (split; [apply Z.div_pos; lia|apply Z.div_lt_upper_bound; lia]).
    lia. }
  destruct Hfam as [H|[H|[H|[H|[H|[H|H]]]]]].
  - rewrite (step_threereg c σ w Hget) by by apply (prefix3_iff w 0).
    destruct (threereg_regs_ok (pc σ) (regs σ) w) as (pc' & regs' & -> & Hok);
      [|done|].
    { split; [lia|]. pose proof (Z.div_mod w 8192).
      pose proof (Z.mod_pos_bound w 8192). lia. }
    cbn [mbind option_bind]. by intros [= <-].
  - rewrite (step_tworegImm c σ w Hget) by (left; by apply (prefix3_iff w 1)).
    rewrite tworegImm_eval by (done || auto). cbn [mbind option_bind].
    intros [= <-]. simpl. split; [|done]. apply regs_ok_insert; [done|].
    rewrite decide_True by done. case_decide; lia.
  - rewrite (step_tworegImm c σ w Hget) by (right; by apply (prefix3_iff w 7)).
    rewrite tworegImm_eval by (done || auto). cbn [mbind option_bind].
    intros [= <-]. simpl. split; [|done]. apply regs_ok_insert; [done|].
    rewrite decide_False by lia. apply Z.mod_pos_bound. lia.
  - rewrite (step_mem c σ w Hget)
      by (apply (slice2_of_slice3 _ "1" "0" "0"); by apply (prefix3_iff w 4)).
    rewrite memImm_lw_eval by done.
    destruct (Py.get (memory σ) (_ + _)) as [v|] eqn:Hv; [|done].
    destruct (py_get_word _ _ _ Hmem Hv) as [Hvw _].
    destruct (String.get 2 (fetch w)) as [bit2|]; [|done].
    cbn [mbind option_bind]. cbv zeta.
    destruct (cache_access _ _ _ _ _ _ (L1 σ)) as [[[[l1 st1] line1] mi1]|];
      [|done].
    assert (regs_ok (<[Z.to_nat (w / 128 mod 8) := v]> (regs σ)))
      by by apply regs_ok_insert.
    destruct (_ && _).
    + destruct (cache_access _ _ _ _ _ _ (L2 σ)) as [[[[l2 st2] line2] mi2]|];
        [|done].
      by intros [= <-].
    + by intros [= <-].
  - rewrite (step_mem c σ w Hget)
      by (apply (slice2_of_slice3 _ "1" "0" "1"); by apply (prefix3_iff w 5)).
    rewrite memImm_sw_eval by done.
    destruct (Py.set (memory σ) _ _) as [memory'|] eqn:Hset; [|done].
    apply py_set_word in Hset; [|done|by apply regs_ok_field].
    destruct (String.get 2 (fetch w)) as [bit2|]; [|done].
    cbn [mbind option_bind]. cbv zeta.
    destruct (cache_access _ _ _ _ _ _ (L1 σ)) as [[[[l1 st1] line1] mi1]|];
      [|done].
    destruct (_ && _).
    + destruct (cache_access _ _ _ _ _ _ (L2 σ)) as [[[[l2 st2] line2] mi2]|];
        [|done].
      by intros [= <-].
    + by intros [= <-].
  - rewrite (step_jeq c σ w Hget) by by apply (prefix3_iff w 6).
    rewrite jeq_eval by done. cbn [mbind option_bind]. by intros [= <-].
  - assert (Py.slice 0 2 (fetch w) = "01") as H01.
    { destruct H as [H|H];
        [apply (slice2_of_slice3 _ "0" "1" "0"); by apply (prefix3_iff w 2)
        |apply (slice2_of_slice3 _ "0" "1" "1"); by apply (prefix3_iff w 3)]. }
    rewrite (step_jump c σ w Hget H01).
    destruct (j_or_jal_spec (pc σ) (regs σ) w Hw Hl8) as (imm & _ & _ & ->).
    assert (regs_ok (if decide (Py.slice 0 3 (fetch w) = "011")
                     then <[7%nat := pc σ + 1]> (regs σ) else regs σ)).
    { case_decide; [|done]. apply regs_ok_insert; [done|]. lia. }
    destruct (bool_decide _); by intros [= <-].
Qed.

Lemma step_keeps_words_witness :
  regs_ok (regs (State 1 [0; 32896; 0; 0; 0; 0; 0; 0] demo_image
                   [[(0, 1); (-1, -1)]]
                   [[(0, 1); (-1, -1)]; [(-1, -1); (-1, -1)]] None false
                   (echo demo_cfg ++
                    [Access "L1" MISS 0 0 0; Access "L2" MISS 0 0 0]))) /\
  words_ok (memory (State 1 [0; 32896; 0; 0; 0; 0; 0; 0] demo_image
                      [[(0, 1); (-1, -1)]]
                      [[(0, 1); (-1, -1)]; [(-1, -1); (-1, -1)]] None false
                      (echo demo_cfg ++
                       [Access "L1" MISS 0 0 0; Access "L2" MISS 0 0 0]))).
Proof.
  apply (step_keeps_words demo_cfg demo_state).
  - split; [reflexivity|]. repeat constructor; lia.
  - repeat constructor; lia.
  - simpl. lia.
  - simpl. lia.
  - reflexivity.
Defined.

(** ** The loader *)

Lemma load_lines_step line rest e mem :
  load_lines (line :: rest) e mem =
    match parse_line line with
    | None => None
    | Some (a, w) =>
        if decide (a = e) then
          mem ← Py.set mem a w; load_lines rest (e + 1) mem
        else None
    end.
Proof.
  simpl. unfold parse_line.
  destruct (Re.match_line line) as [[addr instr]|]; [|done].
  destruct (Py.int2 instr) as [w|]; [|done]. cbn [mbind option_bind].
  by repeat case_decide.
Qed.

Lemma load_lines_spec lines : forall (e : nat) mem mem',
  load_lines lines (Z.of_nat e) mem = Some mem' <->
  (lines = [] \/ (e + length lines <= length mem)%nat) /\
  length mem' = length mem /\
  (forall i line, lines !! i = Some line ->
     exists w, parse_line line = Some (Z.of_nat (e + i), w) /\
               mem' !! (e + i)%nat = Some w) /\
  (forall j, (j < e \/ e + length lines <= j)%nat -> mem' !! j = mem !! j).
Proof.
  induction lines as [|line lines IH]; intros e mem mem'.
  - simpl. split.
    + intros [= ->]. split_and!; try done; auto.
    + intros (_ & Hl & _ & Hsame). f_equal. symmetry.
      apply list_eq. intros j. apply Hsame. lia.
  - rewrite load_lines_step. split.
    + destruct (parse_line line) as [[a w]|] eqn:Hp; [|done].
      case_decide as Ha; [|done]. subst a.
      destruct (Py.set mem (Z.of_nat e) w) as [mem1|] eqn:Hset; [|done].
      cbn [mbind option_bind].
      replace (Z.of_nat e + 1) with (Z.of_nat (S e)) by lia.
      intros (Hlen & Hl & Hlines & Hsame)%IH.
      unfold Py.set, Py.index in Hset.
      destruct (decide (0 <= Z.of_nat e < Z.of_nat (length mem))) as [Hin|Hout];
        [|by rewrite decide_False in Hset by lia].
      cbn [mbind option_bind] in Hset. rewrite Nat2Z.id in Hset.
      injection Hset as <-. rewrite length_insert in *.
      cbn [length]. split_and!; try done.
      * right. destruct Hlen as [->|?]; simpl; lia.
      * intros [|i] l Hi; simpl in Hi.
        -- simplify_eq. exists w. rewrite Nat.add_0_r. split; [done|].
           rewrite Hsame by lia. apply list_lookup_insert_eq. lia.
        -- destruct (Hlines i l Hi) as (w' & ? & ?). exists w'.
           by replace (e + S i)%nat with (S e + i)%nat by lia.
      * intros j Hj. rewrite Hsame by lia. apply list_lookup_insert_ne. lia.
    + cbn [length]. intros ([?|Hlen] & Hl & Hlines & Hsame); [done|].
      destruct (Hlines 0%nat line eq_refl) as (w & Hp & Hw).
      rewrite Nat.add_0_r in Hp, Hw. rewrite Hp. rewrite decide_True by done.
      rewrite py_set_nonneg by lia. cbn [mbind option_bind].
      rewrite Nat2Z.id.
      replace (Z.of_nat e + 1) with (Z.of_nat (S e)) by lia.
      apply IH. rewrite length_insert. split_and!; try done.
      * right. lia.
      * intros i l Hi. destruct (Hlines (S i) l Hi) as (w' & ? & ?).
        exists w'. by replace (S e + i)%nat with (e + S i)%nat by lia.
      * intros j Hj. destruct (decide (j = e)) as [->|Hne].
        -- rewrite list_lookup_insert_eq by lia. done.
        -- rewrite list_lookup_insert_ne by done. apply Hsame. lia.
Qed.

Lemma literal_app lit s : Re.literal lit (lit +:+ s) = Some s.
Proof.
  induction lit as [|a lit IH]; [by destruct s|].
  change (String a lit +:+ s) with (String a (lit +:+ s)).
  cbn [Re.literal]. by rewrite decide_True.
Qed.

Lemma span_digits_app d c rest :
  digits d -> Re.is_digit c = false ->
  Re.span_digits (d +:+ String c rest) = (d, String c rest).
Proof.
  intros Hd Hc. induction d as [|x d IH].
  - change ("" +:+ String c rest) with (String c rest).
    cbn [Re.span_digits]. by rewrite Hc.
  - destruct Hd as [Hx Hd].
    change (String x d +:+ String c rest) with (String x (d +:+ String c rest)).
    cbn [Re.span_digits]. by rewrite Hx, IH.
Qed.

Lemma uint_digits d : digits (NilEmpty.string_of_uint d).
Proof. induction d; simpl; auto. Qed.

Lemma to_lu_nonnil n : Unsigned.to_lu n <> Nil.
Proof.
  destruct n as [|n]; [done|]. rewrite Unsigned.to_lu_succ.
  by destruct (Unsigned.to_lu n).
Qed.

Lemma dec_nonempty n : dec n <> "".
Proof.
  unfold dec. rewrite Unsigned.to_uint_alt.
  destruct (Decimal.rev (Unsigned.to_lu n)) eqn:Hr; try done.
  apply DecimalFacts.rev_nil_inv in Hr. by destruct (to_lu_nonnil n).
Qed.

Lemma int10_acc_uint d : forall acc,
  int10_acc (Z.of_nat acc) (NilEmpty.string_of_uint d)
    = Z.of_nat (Nat.of_uint_acc d acc).
Proof.
  induction d; intros acc;
    cbn [NilEmpty.string_of_uint int10_acc Nat.of_uint_acc];
    [done|..]; rewrite <- IHd, Nat.tail_mul_spec; f_equal;
    match goal with |- context [nat_of_ascii ?c] =>
      let v := eval vm_compute in (nat_of_ascii c) in
      change (nat_of_ascii c) with v end; lia.
Qed.

Lemma int10_dec n : int10 (dec n) = Z.of_nat n.
Proof.
  unfold int10, dec. rewrite (int10_acc_uint _ 0).
  change (Nat.of_uint_acc ?d 0) with (Nat.of_uint d).
  by rewrite Unsigned.of_to.
Qed.

Lemma binary_digits s : binary s -> digits s.
Proof.
  induction s as [|c s IH]; [done|]. intros [[-> | ->] Hs]; split; auto.
Qed.

Lemma parse_ram_line n w rest :
  0 <= w < 2 ^ 16 -> Re.dot_star_end rest = true ->
  parse_line (ram_line n w rest) = Some (Z.of_nat n, w).
Proof.
  intros Hw Hrest. unfold parse_line, Re.match_line, ram_line.
  rewrite literal_app. cbn [mbind option_bind].
  change ("] = 16'b" +:+ ?s) with (String "]" (" = 16'b" +:+ s)).
  rewrite span_digits_app by (done || apply uint_digits).
  rewrite decide_False by apply dec_nonempty.
  change (String "]" (" = 16'b" +:+ ?s)) with ("] = 16'b" +:+ s).
  rewrite literal_app. cbn [mbind option_bind].
  change (";" +:+ rest) with (String ";" rest).
  rewrite span_digits_app
    by (done || apply binary_digits, fetch_wf; done).
  rewrite decide_False by (by rewrite fetch_bits).
  change (String ";" rest) with (";" +:+ rest).
  rewrite literal_app. cbn [mbind option_bind]. rewrite Hrest.
  rewrite fetch_bits, int2_bits by (done || lia).
  rewrite Z.mod_small by done. cbn [mbind option_bind]. by rewrite int10_dec.
Qed.

(** X25.  [load_machine_code] returns exactly when there are no more lines
    than words of memory and every line [i] matches the pattern with the
    address [i] and a word of binary digits; memory then has the length it
    had, holds the word of line [i] at index [i] and is unchanged from
    index [len(lines)] on. *)
Theorem load_succeeds_iff lines mem mem' :
  load_machine_code lines mem = Some mem' <->
  (length lines <= length mem)%nat /\
  length mem' = length mem /\
  (forall i line, lines !! i = Some line ->
     exists w, parse_line line = Some (Z.of_nat i, w) /\ mem' !! i = Some w) /\
  (forall j, (length lines <= j)%nat -> mem' !! j = mem !! j).
Proof.
  unfold load_machine_code. rewrite (load_lines_spec lines 0 mem mem').
  split.
  - intros (Hlen & Hl & Hlines & Hsame). split_and!; try done.
    + destruct Hlen as [->|?]; simpl; lia.
    + intros j Hj. apply Hsame. lia.
  - intros (Hlen & Hl & Hlines & Hsame). split_and!; try done.
    + by right.
    + intros j Hj. apply Hsame. lia.
Qed.

(** X26.  A line that does not match the pattern, whose word is not binary
    or whose address is not its position in the file makes
    [load_machine_code] raise, wherever it stands in the file. *)
Theorem load_rejects_bad_line lines mem k line :
  lines !! k = Some line ->
  (forall w, parse_line line <> Some (Z.of_nat k, w)) ->
  load_machine_code lines mem = None.
Proof.
  intros Hk Hbad. destruct (load_machine_code lines mem) as [mem'|] eqn:Hl;
    [|done].
  unfold load_machine_code in Hl.
  apply (load_lines_spec lines 0 mem mem') in Hl as (_ & _ & Hlines & _).
  destruct (Hlines k line Hk) as (w & Hp & _). by destruct (Hbad w).
Qed.

Lemma load_rejects_bad_line_witness :
  load_machine_code
    ["ram[0] = 16'b1000000010000000;"; "ram[5] = 16'b0100000000000001;"]
    [0; 0; 0] = None.
Proof.
  apply (load_rejects_bad_line _ _ 1 "ram[5] = 16'b0100000000000001;").
  - reflexivity.
  - intros w Hw. vm_compute in Hw. discriminate Hw.
Defined.

(** X27.  The loader reads back what the assembler writes: the lines
    [ram[i] = 16'b<16 binary digits of w_i>;<rest>] of 16-bit words [w_i],
    with a [rest] that has no newline before its last character, load the
    words to the front of memory and leave the rest of memory as it was. *)
Theorem load_formatted_image ws rest mem :
  Forall (fun w => 0 <= w < 2 ^ 16) ws ->
  Re.dot_star_end rest = true ->
  (length ws <= length mem)%nat ->
  load_machine_code (imap (fun i w => ram_line i w rest) ws) mem
    = Some (ws ++ drop (length ws) mem).
Proof.
  intros Hws Hrest Hlen. unfold load_machine_code.
  apply (load_lines_spec _ 0). rewrite length_imap. split_and!.
  - right. lia.
  - rewrite List.length_app, length_drop. lia.
  - intros i line Hi. rewrite list_lookup_imap in Hi.
    destruct (ws !! i) as [w|] eqn:Hw; [|done]. injection Hi as <-.
    exists w. split.
    + apply parse_ram_line; [|done].
      rewrite Forall_lookup in Hws. by apply (Hws i).
    + simpl. rewrite lookup_app_l; [done|]. by eapply lookup_lt_Some.
  - intros j Hj. rewrite lookup_app_r by lia. rewrite lookup_drop.
    f_equal. lia.
Qed.

Lemma load_formatted_image_witness :
  load_machine_code
    (imap (fun i w => ram_line i w (String Re.newline "")) [32896; 16385])
    [0; 0; 0]
    = Some ([32896; 16385] ++ drop (length [32896; 16385]) [0; 0; 0]).
Proof.
  apply (load_formatted_image [32896; 16385] (String Re.newline "") [0; 0; 0]).
  - repeat constructor; lia.
  - reflexivity.
  - simpl. lia.
Defined.
